(** * Base Substrate Motion Theory: the two numerical pipelines

    A shallow embedding of [BSMVerification]
    (deepseek_python_20251224_19803d.py) and [BSMCalculator]
    (src/bsm_calculator.py).

    Both classes are thin drivers over two numeric libraries: mpmath
    (arbitrary-precision values, transcendental functions, a root finder)
    and Python's own binary64 floats.  The Python floats are Rocq's
    primitive floats.  mpmath is an external collaborator: it is the
    interface [NumLib] below, every operation of which takes the working
    precision [mp.dps] it runs under.  The stages are written once, over
    that interface; [Exact] at the end of the definitions is the instance
    in which every operation is the exact real one. *)

From Stdlib Require Import ZArith Reals Lra Lia.
From Stdlib Require Import Floats.PrimFloat Floats.FloatOps Floats.SpecFloat.
From Stdlib Require Numbers.Cyclic.Int63.Uint63.
From stdpp Require Import gmap strings pretty.

Local Open Scope Z_scope.

(** ** Python exceptions and results *)

Inductive PyExc : Type :=
| ZeroDivisionError
| OverflowError
| ValueError (msg : string)
| TypeError (msg : string)
| KeyError (key : string).

Definition res (A : Type) : Type := (PyExc + A)%type.

#[global] Instance res_ret : MRet res := λ A x, inr x.
#[global] Instance res_bind : MBind res :=
  λ A B f m, match m with inl e => inl e | inr x => f x end.

(** ** The numeric libraries

    [mpf] is mpmath's value type.  Operations that mpmath rounds take the
    working precision first.  Those that can raise return a [res]. *)

Class NumLib : Type := {
  mpf : Type;
  (** [mp.mpf('<m>e<e>')]: the decimal literal m * 10^e *)
  mp_mpf : Z → Z → Z → mpf;
  (** the lazy constants [mp.e] and [mp.pi], evaluated where they are used *)
  mp_e : Z → mpf;
  mp_pi : Z → mpf;
  (** a Python int or float operand of a mixed operation, converted exactly *)
  mp_int : Z → mpf;
  mp_float : float → mpf;
  mp_add : Z → mpf → mpf → mpf;
  mp_sub : Z → mpf → mpf → mpf;
  mp_mul : Z → mpf → mpf → mpf;
  mp_div : Z → mpf → mpf → res mpf;
  mp_neg : Z → mpf → mpf;
  mp_abs : Z → mpf → mpf;
  mp_pow : Z → mpf → mpf → res mpf;
  mp_pow_int : Z → mpf → Z → res mpf;
  mp_sqrt : Z → mpf → mpf;
  mp_exp : Z → mpf → mpf;
  mp_log : Z → mpf → mpf;
  mp_log10 : Z → mpf → mpf;
  (** [mp.findroot(f, x0)] *)
  mp_findroot : Z → (mpf → res mpf) → mpf → res mpf;
  (** [int(x)], [str(x)] and [format(x, spec)] of an mpf *)
  mp_to_int : mpf → res Z;
  mp_str : Z → mpf → string;
  mp_format : Z → string → mpf → res string;
  (** [x ** n] and [format(x, spec)] of a Python float *)
  float_pow : float → Z → res float;
  float_format : string → float → string
}.

(** Python's true division, of two floats and of two (small) ints. *)
Definition float_truediv (x y : float) : res float :=
  if PrimFloat.eqb y 0%float then inl ZeroDivisionError
  else inr (PrimFloat.div x y).

Definition float_of_int (n : Z) : float :=
  if n <? 0 then PrimFloat.opp (PrimFloat.of_uint63 (Uint63.of_Z (- n)))
  else PrimFloat.of_uint63 (Uint63.of_Z n).

Definition int_truediv (a b : Z) : res float :=
  float_truediv (float_of_int a) (float_of_int b).

(** ** A pipeline instance while one of its methods runs

    [results] is [self.results]; [stdout] is what has been printed. A
    Python exception leaves every write made before it in place, so a
    method returns its outcome together with the state it reached. *)

Record St `{NumLib} : Type := mkSt {
  results : gmap string mpf;
  stdout : list string
}.
Arguments mkSt {_} _ _.

Definition M `{NumLib} (A : Type) : Type := St → res A * St.

#[global] Instance M_ret `{NumLib} : MRet M := λ A x st, (inr x, st).
#[global] Instance M_bind `{NumLib} : MBind M :=
  λ A B f m st,
    match m st with
    | (inl e, st') => (inl e, st')
    | (inr x, st') => f x st'
    end.

Section Primitives.
Context `{NumLib}.

Definition lift {A} (r : res A) : M A := λ st, (r, st).

(** [key in self.results] *)
Definition contains (key : string) : M bool :=
  λ st, (inr (bool_decide (is_Some (results st !! key))), st).

(** [self.results[key]] *)
Definition getitem (key : string) : M mpf :=
  λ st, match results st !! key with
        | Some v => (inr v, st)
        | None => (inl (KeyError key), st)
        end.

(** [self.results[key] = v] *)
Definition setitem (key : string) (v : mpf) : M unit :=
  λ st, (inr tt, mkSt (<[key := v]> (results st)) (stdout st)).

(** [self.results.update({k1: v1, ...})]: the items in order *)
Definition dict_update (items : list (string * mpf)) : M unit :=
  λ st, (inr tt,
         mkSt (foldl (λ r kv, <[kv.1 := kv.2]> r) (results st) items)
              (stdout st)).

Definition print (line : string) : M unit :=
  λ st, (inr tt, mkSt (results st) (stdout st ++ [line])).

Definition get_results : M (gmap string mpf) :=
  λ st, (inr (results st), st).

(** What the stages other than the comparison leave alone: the relative
    error of the cache, and the output. *)
Definition keeps_rel_error (st st' : St) : Prop :=
  results st' !! "zdc_rel_error" = results st !! "zdc_rel_error" ∧
  stdout st' = stdout st.

(** [wp m st Q]: the run of [m] from [st] ends in an outcome and a state
    that satisfy [Q], whether it returns or raises. *)
Definition wp {A} (m : M A) (st : St) (Q : res A → St → Prop) : Prop :=
  Q (m st).1 (m st).2.
End Primitives.

(** [s * n] on strings *)
Fixpoint str_mul (s : string) (n : nat) : string :=
  match n with
  | O => EmptyString
  | S n' => String.append s (str_mul s n')
  end.

Notation "s +:+ t" := (String.append s t) (at level 60, right associativity).

(** The newline character, ["\n"] in the Python source. *)
Definition nl : string := String (Ascii.ascii_of_nat 10) EmptyString.

(** [if key not in self.results: stage()] *)
Definition if_not_in `{NumLib} {A} (key : string) (stage : M A) : M unit :=
  cached ← contains key;
  if (cached : bool) then mret tt else (_ ← stage; mret tt).

(** ** deepseek_python_20251224_19803d.py: class BSMVerification *)

Module BSMVerification.
Section Stages.
Context `{NumLib}.

(** The working precision [mp.mp.dps] the stage runs under. *)
Variable p : Z.

Definition N_c : Z := 3.

(** The closure [f] of [verify_transcendental_equation]. *)
Definition f (epsilon_BSM_value T : mpf) : res mpf :=
  let e := mp_e p in
  let pi := mp_pi p in
  q ← mp_div p e pi;
  let left := mp_mul p T (mp_log p (mp_add p (mp_int 1) q)) in
  w ← mp_pow p (mp_e p) (mp_mul p (mp_neg p pi) T);
  let right := mp_add p (mp_add p (mp_int 1) w) epsilon_BSM_value in
  mret (mp_sub p left right).

(** The local [epsilon_BSM] (Eq. 5.2), computed and then not used. *)
Definition epsilon_BSM : res mpf :=
  let pi := mp_pi p in
  let hbar := mp_mpf p 1054571817 (-43) in               (* '1.054571817e-34' *)
  let v0 := mp_mul p (mp_mpf p 56 (-3)) (mp_mpf p 122 17) in (* '0.056' * '1.22e19' *)
  let mu := mp_mpf p 1 19 in                             (* '1e19' *)
  v0_2 ← mp_pow_int p v0 2;
  let V_prime_prime := mp_mul p (mp_mul p (mp_int 2) (mp_mpf p 1 (-1))) v0_2 in
  pi_2 ← mp_pow_int p pi 2;
  a ← mp_div p hbar (mp_mul p (mp_int 32) pi_2);
  V_2 ← mp_pow_int p V_prime_prime 2;
  v0_2' ← mp_pow_int p v0 2;
  b ← mp_div p V_2 v0_2';
  mu_2 ← mp_pow_int p mu 2;
  c ← mp_div p V_prime_prime mu_2;
  mret (mp_mul p (mp_mul p a b) (mp_log p c)).

Definition verify_transcendental_equation : M (mpf * mpf) :=
  let e := mp_e p in
  let pi := mp_pi p in
  _ ← lift epsilon_BSM;
  let epsilon_BSM_value := mp_mpf p 4350917 (-20) in     (* '4.350917e-14' *)
  T_eq ← lift (mp_findroot p (f epsilon_BSM_value) (mp_mpf p 10 (-1)));
  q ← lift (mp_div p e pi);
  dict_update [("epsilon_BSM", epsilon_BSM_value);
               ("T_eq", T_eq);
               ("log_term", mp_log p (mp_add p (mp_int 1) q))];;
  mret (T_eq, epsilon_BSM_value).

Definition verify_geometric_coupling : M mpf :=
  if_not_in "T_eq" verify_transcendental_equation;;
  T_eq ← getitem "T_eq";
  let e := mp_e p in
  let pi := mp_pi p in
  let sqrt2 := mp_sqrt p (mp_int 2) in
  G ← lift (mp_div p (mp_int 1)
              (mp_mul p (mp_mul p (mp_mul p e pi) sqrt2) T_eq));
  let G_target := mp_mpf p 74660340411 (-12) in          (* '0.074660340411' *)
  setitem "𝒢" G;;
  setitem "𝒢_target" G_target;;
  setitem "𝒢_error" (mp_abs p (mp_sub p G G_target));;
  mret G.

Definition verify_zdc : M (mpf * mpf * mpf) :=
  if_not_in "𝒢" verify_geometric_coupling;;
  let μ := mp_mpf p 183615267343 (-8) in                 (* '1836.15267343' *)
  G ← getitem "𝒢";
  let α_inv_pred := mp_mul p μ G in
  let α_inv_CODATA := mp_mpf p 137035999084 (-9) in      (* '137.035999084' *)
  let error := mp_abs p (mp_sub p α_inv_pred α_inv_CODATA) in
  rel_error ← lift (mp_div p error α_inv_CODATA);
  dict_update [("α_inv_pred", α_inv_pred);
               ("α_inv_CODATA", α_inv_CODATA);
               ("zdc_error", error);
               ("zdc_rel_error", rel_error)];;
  mret (α_inv_pred, α_inv_CODATA, error).

Definition verify_qcd_scale : M mpf :=
  if_not_in "𝒢" verify_geometric_coupling;;
  let m_e_eV := mp_mpf p 51099895 (-2) in                (* '510998.95' *)
  let α_inv := mp_mpf p 137035999084 (-9) in             (* '137.035999084' *)
  α ← lift (mp_div p (mp_int 1) α_inv);
  let e := mp_e p in
  let pi := mp_pi p in
  let sqrt2 := mp_sqrt p (mp_int 2) in
  term1 ← lift (mp_div p (mp_int 1) (mp_mul p (mp_int 2) sqrt2));
  term2 ← lift (mp_div p (mp_sub p e (mp_int 1)) (mp_add p e (mp_int 1)));
  q ← lift (mp_div p e pi);
  term3 ← lift (mp_div p (mp_int 1) (mp_log p (mp_add p (mp_int 1) q)));
  term4 ← lift (int_truediv (N_c ^ 2 - 1) (2 * N_c));
  let term5 := mp_mpf p 214 (-2) in                      (* '2.14' *)
  let C_gyro :=
    mp_mul p (mp_mul p (mp_mul p (mp_mul p term1 term2) term3)
                       (mp_float term4)) term5 in
  x ← lift (mp_div p m_e_eV α);
  Λ_QCD_bare ← lift (mp_div p (mp_mul p x C_gyro) (mp_float 1e6%float));
  b0 ← lift (int_truediv (11 * N_c - 2 * 3) 3);
  let α_s_1GeV := mp_mpf p 45 (-2) in                    (* '0.45' *)
  let α_s_Λ := mp_mpf p 10 (-1) in                       (* '1.0' *)
  let two_pi := mp_mul p (mp_int 2) pi in
  i1 ← lift (mp_div p (mp_int 1) α_s_Λ);
  i2 ← lift (mp_div p (mp_int 1) α_s_1GeV);
  y ← lift (mp_div p two_pi (mp_mul p (mp_float b0) (mp_sub p i1 i2)));
  let Λ_QCD_1GeV := mp_mul p Λ_QCD_bare (mp_exp p y) in
  dict_update [("C_gyro", C_gyro);
               ("Λ_QCD_bare", Λ_QCD_bare);
               ("Λ_QCD_1GeV", Λ_QCD_1GeV)];;
  mret Λ_QCD_1GeV.

Definition verify_gravitational_constant : M (mpf * mpf) :=
  let c := mp_mpf p 299792458 0 in                       (* '299792458' *)
  let hbar := mp_mpf p 1054571817 (-43) in               (* '1.054571817e-34' *)
  if_not_in "𝒢" verify_geometric_coupling;;
  G ← getitem "𝒢";
  let pi := mp_pi p in
  let sqrt2 := mp_sqrt p (mp_int 2) in
  T_eq ← getitem "T_eq";
  a ← lift (mp_div p hbar c);
  b ← lift (mp_div p pi sqrt2);
  d ← lift (mp_div p (mp_int 1) (mp_mul p G T_eq));
  let M_s := mp_mul p (mp_mul p a b) d in
  c_3 ← lift (mp_pow_int p c 3);
  k ← lift (mp_div p c_3 hbar);
  G_2 ← lift (mp_pow_int p G 2);
  M_s_2 ← lift (mp_pow_int p M_s 2);
  r ← lift (mp_div p G_2 M_s_2);
  let G_pred := mp_mul p k r in
  let G_CODATA := mp_mpf p 667430 (-16) in               (* '6.67430e-11' *)
  let Ḡ_over_G := mp_neg p (mp_mpf p 8 (-13)) in         (* -'0.8e-12' *)
  dict_update [("M_s", M_s);
               ("G_pred", G_pred);
               ("G_CODATA", G_CODATA);
               ("Ḡ_over_G", Ḡ_over_G)];;
  mret (G_pred, Ḡ_over_G).
(** [int(-mp.log10(x))], the digit count both reports print. *)
Definition significant_digits (x : mpf) : res Z :=
  mp_to_int (mp_neg p (mp_log10 p x)).

Definition run_all_verifications : M (gmap string mpf) :=
  print (str_mul "=" 80);;
  print "BSM THEORY - COMPLETE MATHEMATICAL VERIFICATION";;
  print (str_mul "=" 80);;
  (* 1. Transcendental equation *)
  print (nl +:+ "1. TRANSCENDENTAL EQUATION WITH QUANTUM CORRECTION");;
  print (str_mul "-" 50);;
  '(T_eq, ε_BSM) ← verify_transcendental_equation;
  print ("Quantum correction ε_BSM = " +:+ mp_str p ε_BSM);;
  print ("T_eq = " +:+ mp_str p T_eq);;
  (* 2. Geometric coupling *)
  print (nl +:+ "2. GEOMETRIC COUPLING 𝒢");;
  print (str_mul "-" 50);;
  G ← verify_geometric_coupling;
  print ("𝒢 = " +:+ mp_str p G);;
  print "Target: 0.074660340411";;
  G_error ← getitem "𝒢_error";
  print ("Difference: " +:+ mp_str p G_error);;
  (* 3. ZDC verification *)
  print (nl +:+ "3. ZERO DISCREPANCY CONDITION (ZDC)");;
  print (str_mul "-" 50);;
  '(α_pred, α_CODATA, error) ← verify_zdc;
  print "μ = 1836.15267343";;
  print ("𝒢 = " +:+ mp_str p G);;
  print ("α⁻¹ predicted = μ × 𝒢 = " +:+ mp_str p α_pred);;
  print ("α⁻¹ CODATA    = " +:+ mp_str p α_CODATA);;
  print ("Absolute error = " +:+ mp_str p error);;
  rel ← getitem "zdc_rel_error";
  rel_s ← lift (mp_format p ".2e" rel);
  print ("Relative error = " +:+ rel_s);;
  rel' ← getitem "zdc_rel_error";
  digits ← lift (significant_digits rel');
  print ("Significant digits = " +:+ pretty digits);;
  (* 4. QCD scale *)
  print (nl +:+ "4. QCD CONFINEMENT SCALE");;
  print (str_mul "-" 50);;
  Λ_QCD ← verify_qcd_scale;
  C_gyro ← getitem "C_gyro";
  print ("C_gyro = " +:+ mp_str p C_gyro);;
  Λ_bare ← getitem "Λ_QCD_bare";
  print ("Λ_QCD (bare) = " +:+ mp_str p Λ_bare +:+ " MeV");;
  print ("Λ_QCD (1 GeV) = " +:+ mp_str p Λ_QCD +:+ " MeV");;
  print "Experimental range: 150-200 MeV";;
  (* 5. Gravitational constant *)
  print (nl +:+ "5. GRAVITATIONAL CONSTANT AND VARIATION");;
  print (str_mul "-" 50);;
  '(G_pred, Ḡ_over_G) ← verify_gravitational_constant;
  M_s ← getitem "M_s";
  print ("Substrate mass scale M_s = " +:+ mp_str p M_s +:+ " kg");;
  print ("G predicted = " +:+ mp_str p G_pred +:+ " m³/kg·s²");;
  G_CODATA ← getitem "G_CODATA";
  print ("G CODATA    = " +:+ mp_str p G_CODATA +:+ " m³/kg·s²");;
  print ("Ḡ/G predicted = " +:+ mp_str p Ḡ_over_G +:+ " yr⁻¹");;
  print "LLR bound: |Ḡ/G| < 1.0e-12 yr⁻¹";;
  print "Status: Within experimental bounds ✓";;
  get_results.
End Stages.
End BSMVerification.

(** ** src/bsm_calculator.py: class BSMCalculator

    The file is stored with its non-ASCII text mis-decoded, so the keys
    and the printed text of this class are the byte strings below. *)

Module BSMCalculator.
Section Stages.
Context `{NumLib}.

(** The working precision [mp.mp.dps] the stage runs under. *)
Variable p : Z.

(** [from scipy.constants import c, hbar, G]: Python floats of a table
    that is not part of the repository. *)
Variables c hbar G : float.

Definition N_c : Z := 3.

(** The closure [transcendental_eq] of [compute_geometric_factors]. *)
Definition transcendental_eq (epsilon_BSM T : mpf) : res mpf :=
  let e := mp_e p in
  let pi := mp_pi p in
  q ← mp_div p e pi;
  let left := mp_mul p T (mp_log p (mp_add p (mp_int 1) q)) in
  w ← mp_pow p (mp_e p) (mp_mul p (mp_neg p pi) T);
  let right := mp_add p (mp_add p (mp_int 1) w) epsilon_BSM in
  mret (mp_sub p left right).

Definition compute_geometric_factors : M (mpf * mpf) :=
  let e := mp_e p in
  let pi := mp_pi p in
  let sqrt2 := mp_sqrt p (mp_int 2) in
  let epsilon_BSM := mp_mpf p 4350917 (-20) in           (* '4.350917e-14' *)
  T_eq ← lift (mp_findroot p (transcendental_eq epsilon_BSM)
                 (mp_mpf p 10 (-1)));
  𝒢 ← lift (mp_div p (mp_int 1)
              (mp_mul p (mp_mul p (mp_mul p e pi) sqrt2) T_eq));
  dict_update [("T_eq", T_eq);
               ("ğ’¢", 𝒢);
               ("epsilon_BSM", epsilon_BSM)];;
  mret (T_eq, 𝒢).

Definition significant_digits (x : mpf) : res Z :=
  mp_to_int (mp_neg p (mp_log10 p x)).

Definition verify_zdc : M (mpf * mpf * mpf) :=
  let μ := mp_mpf p 183615267343 (-8) in                 (* '1836.15267343' *)
  let α_inv_CODATA := mp_mpf p 137035999084 (-9) in      (* '137.035999084' *)
  if_not_in "ğ’¢" compute_geometric_factors;;
  𝒢 ← getitem "ğ’¢";
  let α_inv_pred := mp_mul p μ 𝒢 in
  let error := mp_abs p (mp_sub p α_inv_pred α_inv_CODATA) in
  rel_error ← lift (mp_div p error α_inv_CODATA);
  dict_update [("Î¼", μ);
               ("Î±_inv_pred", α_inv_pred);
               ("Î±_inv_CODATA", α_inv_CODATA);
               ("zdc_error", error);
               ("zdc_rel_error", rel_error)];;
  print (str_mul "=" 60);;
  print "ZDC VERIFICATION";;
  print (str_mul "=" 60);;
  print ("Î¼ = m_p/m_e = " +:+ mp_str p μ);;
  print ("ğ’¢ = " +:+ mp_str p 𝒢);;
  print ("Predicted Î±â»Â¹ = Î¼ Ã— ğ’¢ = " +:+ mp_str p α_inv_pred);;
  print ("Experimental Î±â»Â¹ = " +:+ mp_str p α_inv_CODATA);;
  error_s ← lift (mp_format p ".2e" error);
  print ("Absolute error = " +:+ error_s);;
  rel_s ← lift (mp_format p ".2e" rel_error);
  print ("Relative error = " +:+ rel_s);;
  digits ← lift (significant_digits rel_error);
  print ("Significant digits = " +:+ pretty digits);;
  mret (α_inv_pred, α_inv_CODATA, error).

Definition compute_qcd_scale : M mpf :=
  if_not_in "Î±_inv_pred" verify_zdc;;
  let m_e_eV := mp_mpf p 51099895 (-2) in                (* '510998.95' *)
  α_inv_pred ← getitem "Î±_inv_pred";
  α ← lift (mp_div p (mp_int 1) α_inv_pred);
  let e := mp_e p in
  let pi := mp_pi p in
  let sqrt2 := mp_sqrt p (mp_int 2) in
  let γ_mean := mp_mpf p 214 (-2) in                     (* '2.14' *)
  t1 ← lift (mp_div p (mp_int 1) (mp_mul p (mp_int 2) sqrt2));
  t2 ← lift (mp_div p (mp_sub p e (mp_int 1)) (mp_add p e (mp_int 1)));
  q ← lift (mp_div p e pi);
  C_gyro ← lift (mp_div p (mp_mul p t1 t2)
                   (mp_log p (mp_add p (mp_int 1) q)));
  t4 ← lift (int_truediv (N_c ^ 2 - 1) (2 * N_c));
  let C_gyro := mp_mul p C_gyro (mp_mul p (mp_float t4) γ_mean) in
  x ← lift (mp_div p m_e_eV α);
  Λ_QCD_bare ← lift (mp_div p (mp_mul p x C_gyro) (mp_float 1e6%float));
  b0 ← lift (int_truediv (11 * N_c - 2 * 3) 3);
  let two_pi := mp_mul p (mp_int 2) pi in
  y ← lift (mp_div p two_pi
              (mp_float (PrimFloat.mul b0 (float_of_int 2))));
  let Λ_QCD_1GeV := mp_mul p Λ_QCD_bare (mp_exp p y) in
  dict_update [("Î›_QCD_bare", Λ_QCD_bare);
               ("Î›_QCD_1GeV", Λ_QCD_1GeV);
               ("C_gyro", C_gyro)];;
  print (nl +:+ str_mul "=" 60);;
  print "QCD SCALE CALCULATION";;
  print (str_mul "=" 60);;
  print ("C_gyro = " +:+ mp_str p C_gyro);;
  print ("Î›_QCD (bare) = " +:+ mp_str p Λ_QCD_bare +:+ " MeV");;
  print ("Î›_QCD (1 GeV) = " +:+ mp_str p Λ_QCD_1GeV +:+ " MeV");;
  print "Experimental range: 150-200 MeV";;
  mret Λ_QCD_1GeV.

Definition compute_gravitational_constant : M (mpf * mpf) :=
  if_not_in "ğ’¢" compute_geometric_factors;;
  𝒢 ← getitem "ğ’¢";
  T_eq ← getitem "T_eq";
  let pi := mp_pi p in
  let sqrt2 := mp_sqrt p (mp_int 2) in
  a ← lift (float_truediv hbar c);
  b ← lift (mp_div p pi sqrt2);
  d ← lift (mp_div p (mp_int 1) (mp_mul p 𝒢 T_eq));
  let M_s := mp_mul p (mp_mul p (mp_float a) b) d in
  c_3 ← lift (float_pow c 3);
  k ← lift (float_truediv c_3 hbar);
  𝒢_2 ← lift (mp_pow_int p 𝒢 2);
  M_s_2 ← lift (mp_pow_int p M_s 2);
  r ← lift (mp_div p 𝒢_2 M_s_2);
  let G_pred := mp_mul p (mp_float k) r in
  let Ḡ_over_G := mp_neg p (mp_mpf p 8 (-13)) in         (* -'0.8e-12' *)
  dict_update [("G_pred", G_pred);
               ("á¸ _over_G", Ḡ_over_G);
               ("M_s", M_s)];;
  print (nl +:+ str_mul "=" 60);;
  print "GRAVITATIONAL CONSTANT";;
  print (str_mul "=" 60);;
  M_s_s ← lift (mp_format p ".2e" M_s);
  print ("Substrate mass scale M_s = " +:+ M_s_s +:+ " kg");;
  G_pred_s ← lift (mp_format p ".6e" G_pred);
  print ("G predicted = " +:+ G_pred_s +:+ " mÂ³/kgÂ·sÂ²");;
  print ("G CODATA    = " +:+ float_format ".6e" G +:+ " mÂ³/kgÂ·sÂ²");;
  print ("á¸ /G predicted = " +:+ mp_str p Ḡ_over_G +:+ " yrâ»Â¹");;
  print ("LLR bound: |á¸ /G| < 1.0e-12 yrâ»Â¹");;
  mret (G_pred, Ḡ_over_G).

Definition run_complete_analysis : M (gmap string mpf) :=
  print (str_mul "=" 80);;
  print "BASE SUBSTRATE MOTION THEORY - COMPLETE ANALYSIS";;
  print (str_mul "=" 80);;
  print (nl +:+ "1. Computing geometric factors...");;
  compute_geometric_factors;;
  print (nl +:+ "2. Verifying Zero Discrepancy Condition...");;
  verify_zdc;;
  print (nl +:+ "3. Calculating QCD confinement scale...");;
  compute_qcd_scale;;
  print (nl +:+ "4. Computing gravitational constant...");;
  compute_gravitational_constant;;
  print (nl +:+ str_mul "=" 80);;
  print "ANALYSIS COMPLETE";;
  print (str_mul "=" 80);;
  get_results.
End Stages.
End BSMCalculator.

(** ** The Python process

    [mp.mp.dps] belongs to the process, not to an object: [__init__]
    assigns it, and every mpmath operation of every object reads it when
    it runs.  The objects live in a heap; a method call runs the method on
    the object's [results] under the precision found at the call. *)

Inductive Obj `{NumLib} : Type :=
| VerificationObj (results : gmap string mpf)
| CalculatorObj (results constants : gmap string mpf).

Definition obj_results `{NumLib} (o : Obj) : gmap string mpf :=
  match o with
  | VerificationObj r => r
  | CalculatorObj r _ => r
  end.

Definition obj_with_results `{NumLib} (o : Obj) (r : gmap string mpf) : Obj :=
  match o with
  | VerificationObj _ => VerificationObj r
  | CalculatorObj _ k => CalculatorObj r k
  end.

Record Process `{NumLib} : Type := mkProcess {
  mp_dps : Z;
  heap : gmap nat Obj;
  console : list string
}.
Arguments mkProcess {_} _ _ _.

Section Objects.
Context `{NumLib}.

(** [BSMVerification(precision)]; [precision] defaults to 200. *)
Definition new_BSMVerification (precision : option Z) (w : Process)
  : nat * Process :=
  let self := fresh (dom (heap w)) in
  (self, mkProcess (default 200 precision)
                   (<[self := VerificationObj ∅]> (heap w))
                   (console w)).

(** [BSMCalculator(precision)]; [precision] defaults to 100. *)
Definition new_BSMCalculator (precision : option Z) (w : Process)
  : nat * Process :=
  let self := fresh (dom (heap w)) in
  (self, mkProcess (default 100 precision)
                   (<[self := CalculatorObj ∅ ∅]> (heap w))
                   (console w)).

(** [Class(precision)] for either class. *)
Inductive pipeline_class : Type := Verification | Calculator.

Definition new (cls : pipeline_class) : option Z → Process → nat * Process :=
  match cls with
  | Verification => new_BSMVerification
  | Calculator => new_BSMCalculator
  end.

(** [self.method()], for a method given as a function of the precision
    it finds.  [None] when [self] is not an object of the heap. *)
Definition call {A} (self : nat) (method : Z → M A) (w : Process)
  : option (res A * Process) :=
  o ← heap w !! self;
  let '(out, st) := method (mp_dps w) (mkSt (obj_results o) (console w)) in
  Some (out, mkProcess (mp_dps w)
                       (<[self := obj_with_results o (results st)]> (heap w))
                       (stdout st)).
End Objects.

(** ** Sequences of stage calls on one object *)

Module VerificationCalls.
Section Calls.
Context `{NumLib}.

Inductive method : Type :=
| transcendental_equation | geometric_coupling | zdc | qcd_scale
| gravitational_constant | all_verifications.

Definition invoke (p : Z) (m : method) : M unit :=
  match m with
  | transcendental_equation =>
      _ ← BSMVerification.verify_transcendental_equation p; mret tt
  | geometric_coupling =>
      _ ← BSMVerification.verify_geometric_coupling p; mret tt
  | zdc => _ ← BSMVerification.verify_zdc p; mret tt
  | qcd_scale => _ ← BSMVerification.verify_qcd_scale p; mret tt
  | gravitational_constant =>
      _ ← BSMVerification.verify_gravitational_constant p; mret tt
  | all_verifications =>
      _ ← BSMVerification.run_all_verifications p; mret tt
  end.

(** The calls one after the other; the caller may catch an exception
    and go on, so the state is threaded through whatever the outcome. *)
Definition run (p : Z) (ms : list method) (st : St) : St :=
  foldl (λ st m, (invoke p m st).2) st ms.
End Calls.
End VerificationCalls.

Module CalculatorCalls.
Section Calls.
Context `{NumLib}.
Variables c hbar G : float.

Inductive method : Type :=
| geometric_factors | zdc | qcd_scale | gravitational_constant
| complete_analysis.

Definition invoke (p : Z) (m : method) : M unit :=
  match m with
  | geometric_factors =>
      _ ← BSMCalculator.compute_geometric_factors p; mret tt
  | zdc => _ ← BSMCalculator.verify_zdc p; mret tt
  | qcd_scale => _ ← BSMCalculator.compute_qcd_scale p; mret tt
  | gravitational_constant =>
      _ ← BSMCalculator.compute_gravitational_constant p c hbar G; mret tt
  | complete_analysis =>
      _ ← BSMCalculator.run_complete_analysis p c hbar G; mret tt
  end.

Definition run (p : Z) (ms : list method) (st : St) : St :=
  foldl (λ st m, (invoke p m st).2) st ms.
End Calls.
End CalculatorCalls.

(** ** Exact arithmetic

    The instance of [NumLib] in which nothing is rounded: a value is a
    real number, or one of mpmath's [inf], [-inf] and [nan], and every
    operation is the exact one, whatever the precision.  Where mpmath
    would leave the real line for a complex number the value is [nan].
    The root finder, the printing functions and the float power are not
    arithmetic; the instance takes them as they come. *)

Module Exact.
Local Open Scope R_scope.

Inductive xreal : Type := Fin (x : R) | PInf | NInf | NaN.

Record Externals : Type := {
  solver : (xreal → res xreal) → xreal → res xreal;
  show : xreal → string;
  fmt : string → xreal → res string;
  fpow : float → Z → res float;
  ffmt : string → float → string
}.

(** m * b^e for an integer mantissa *)
Definition scaled (b m e : Z) : R :=
  if (0 <=? e)%Z then IZR (m * b ^ e) else IZR m / IZR (b ^ (- e)).

Definition of_spec_float (f : spec_float) : xreal :=
  match f with
  | S754_zero _ => Fin 0
  | S754_infinity false => PInf
  | S754_infinity true => NInf
  | S754_nan => NaN
  | S754_finite false m e => Fin (scaled 2 (Z.pos m) e)
  | S754_finite true m e => Fin (scaled 2 (Z.neg m) e)
  end.

Definition x_float (f : float) : xreal := of_spec_float (Prim2SF f).

Definition signed_inf (negative : bool) : xreal :=
  if negative then NInf else PInf.

(** x * (+-inf) for a real x *)
Definition scale_inf (x : R) (negative : bool) : xreal :=
  if Rlt_dec 0 x then signed_inf negative
  else if Rlt_dec x 0 then signed_inf (negb negative)
  else NaN.

Definition x_neg (a : xreal) : xreal :=
  match a with
  | Fin x => Fin (- x)
  | PInf => NInf
  | NInf => PInf
  | NaN => NaN
  end.

Definition x_abs (a : xreal) : xreal :=
  match a with
  | Fin x => Fin (Rabs x)
  | PInf | NInf => PInf
  | NaN => NaN
  end.

Definition x_add (a b : xreal) : xreal :=
  match a, b with
  | Fin x, Fin y => Fin (x + y)
  | NaN, _ | _, NaN => NaN
  | PInf, NInf | NInf, PInf => NaN
  | PInf, _ | _, PInf => PInf
  | NInf, _ | _, NInf => NInf
  end.

Definition x_sub (a b : xreal) : xreal := x_add a (x_neg b).

Definition x_mul (a b : xreal) : xreal :=
  match a, b with
  | Fin x, Fin y => Fin (x * y)
  | NaN, _ | _, NaN => NaN
  | Fin x, PInf | PInf, Fin x => scale_inf x false
  | Fin x, NInf | NInf, Fin x => scale_inf x true
  | PInf, PInf | NInf, NInf => PInf
  | PInf, NInf | NInf, PInf => NaN
  end.

Definition x_div (a b : xreal) : res xreal :=
  match a, b with
  | Fin x, Fin y =>
      if Req_dec_T y 0 then inl ZeroDivisionError else inr (Fin (x / y))
  | (PInf | NInf | NaN), Fin y =>
      if Req_dec_T y 0 then inl ZeroDivisionError
      else inr (match a with
                | PInf => scale_inf y false
                | NInf => scale_inf y true
                | _ => NaN
                end)
  | Fin _, (PInf | NInf) => inr (Fin 0)
  | _, _ => inr NaN
  end.

Definition x_pow_int (a : xreal) (n : Z) : res xreal :=
  match a with
  | Fin x =>
      if (0 <=? n)%Z then inr (Fin (x ^ Z.to_nat n))
      else if Req_dec_T x 0 then inl ZeroDivisionError
      else inr (Fin (/ x ^ Z.to_nat (- n)))
  | PInf | NInf =>
      if (n =? 0)%Z then inr (Fin 1)
      else if (n <? 0)%Z then inr (Fin 0)
      else inr (match a with
                | NInf => signed_inf (Z.odd n)
                | _ => PInf
                end)
  | NaN => inr NaN
  end.

Definition x_pow (a b : xreal) : res xreal :=
  match a, b with
  | Fin x, Fin y =>
      if Rlt_dec 0 x then inr (Fin (Rpower x y))
      else if Rlt_dec x 0 then inr NaN
      else if Rlt_dec 0 y then inr (Fin 0)
      else if Rlt_dec y 0 then inl ZeroDivisionError
      else inr (Fin 1)
  | _, _ => inr NaN
  end.

Definition x_sqrt (a : xreal) : xreal :=
  match a with
  | Fin x => if Rle_dec 0 x then Fin (R_sqrt.sqrt x) else NaN
  | PInf => PInf
  | _ => NaN
  end.

Definition x_exp (a : xreal) : xreal :=
  match a with
  | Fin x => Fin (exp x)
  | PInf => PInf
  | NInf => Fin 0
  | NaN => NaN
  end.

Definition x_log (a : xreal) : xreal :=
  match a with
  | Fin x =>
      if Rlt_dec 0 x then Fin (ln x)
      else if Rlt_dec x 0 then NaN
      else NInf
  | PInf => PInf
  | _ => NaN
  end.

Definition x_log10 (a : xreal) : xreal :=
  match x_log a with
  | Fin l => Fin (l / ln 10)
  | other => other
  end.

(** [int(x)]: towards zero; [inf] and [nan] have no integer *)
Definition x_to_int (a : xreal) : res Z :=
  match a with
  | Fin x =>
      inr (if Rle_dec 0 x then Int_part x else (- Int_part (- x))%Z)
  | _ => inl (ValueError "cannot convert inf or nan to int")
  end.

Definition numlib (X : Externals) : NumLib := {|
  mpf := xreal;
  mp_mpf := λ _ m e, Fin (scaled 10 m e);
  mp_e := λ _, Fin (exp 1);
  mp_pi := λ _, Fin PI;
  mp_int := λ n, Fin (IZR n);
  mp_float := x_float;
  mp_add := λ _, x_add;
  mp_sub := λ _, x_sub;
  mp_mul := λ _, x_mul;
  mp_div := λ _, x_div;
  mp_neg := λ _, x_neg;
  mp_abs := λ _, x_abs;
  mp_pow := λ _, x_pow;
  mp_pow_int := λ _, x_pow_int;
  mp_sqrt := λ _, x_sqrt;
  mp_exp := λ _, x_exp;
  mp_log := λ _, x_log;
  mp_log10 := λ _, x_log10;
  mp_findroot := λ _, solver X;
  mp_to_int := x_to_int;
  mp_str := λ _, show X;
  mp_format := λ _, fmt X;
  float_pow := fpow X;
  float_format := ffmt X
|}.

(** The closed forms the confinement-scale stages reach.  [term4] is the
    binary64 quotient 8/6 of the source, which is not 4/3. *)
Definition term4 : R := 6004799503160661 / 4503599627370496.

Definition C_gyro : R :=
  1 / (2 * R_sqrt.sqrt 2) * ((exp 1 - 1) / (exp 1 + 1))
  * (1 / ln (1 + exp 1 / PI)) * term4 * (214 / 100).

Definition Λ_bare (α_inv : R) : R :=
  51099895 / 100 * α_inv * C_gyro / 1000000.

(** A root finder that never settles, and printing that shows nothing of
    a value: enough to run every stage whose root is already cached. *)
Definition stalled : Externals := {|
  solver := λ _ _,
    inl (ValueError "Could not find root within given tolerance.");
  show := λ _, "<mpf>"%string;
  fmt := λ _ _, inr "<mpf>"%string;
  fpow := λ x n, inr (Z.iter n (PrimFloat.mul x) 1%float);
  ffmt := λ _ _, "<float>"%string
|}.

(** The same, with a root finder that answers [T] whatever it is asked. *)
Definition rooted (T : R) : Externals := {|
  solver := λ _ _, inr (Fin T);
  show := show stalled;
  fmt := fmt stalled;
  fpow := fpow stalled;
  ffmt := ffmt stalled
|}.
End Exact.

(** The table values of scipy.constants (CODATA 2018), for runs of
    [BSMCalculator] at concrete inputs: c = 299792458.0,
    hbar = 1.0545718176461565e-34, G = 6.6743e-11. *)
Module Scipy.
Definition c : float := 299792458%float.
Definition hbar : float := 0x1.185a7057c690dp-113%float.
Definition G : float := 0x1.2589effed8accp-34%float.
End Scipy.


(** ** What a run does to an instance

    [extends K st st']: every key of the cache is still a key, every new
    key is one of [K], and the output has only grown. *)

Definition extends `{NumLib} (K : gset string) (st st' : St) : Prop :=
  dom (results st) ⊆ dom (results st') ∧
  dom (results st') ⊆ dom (results st) ∪ K ∧
  stdout st `prefix_of` stdout st'.

(** A group of keys is whole in a cache that holds all of it or none. *)
Definition whole (group cache : gset string) : Prop :=
  group ## cache ∨ group ⊆ cache.

(** The keys each stage of BSMVerification writes, and the caches its
    stages build: whole groups, with the root beside the coupling. *)
Module VerificationKeys.
Definition transcendental : gset string :=
  {[ "epsilon_BSM"; "T_eq"; "log_term" ]}.
Definition geometric : gset string := {[ "𝒢"; "𝒢_target"; "𝒢_error" ]}.
Definition zdc : gset string :=
  {[ "α_inv_pred"; "α_inv_CODATA"; "zdc_error"; "zdc_rel_error" ]}.
Definition qcd : gset string := {[ "C_gyro"; "Λ_QCD_bare"; "Λ_QCD_1GeV" ]}.
Definition gravitational : gset string :=
  {[ "M_s"; "G_pred"; "G_CODATA"; "Ḡ_over_G" ]}.
Definition all : gset string :=
  transcendental ∪ geometric ∪ zdc ∪ qcd ∪ gravitational.

Definition closed `{NumLib} (r : gmap string mpf) : Prop :=
  whole transcendental (dom r) ∧ whole geometric (dom r) ∧
  whole zdc (dom r) ∧ whole qcd (dom r) ∧ whole gravitational (dom r) ∧
  ("𝒢" ∈ dom r → "T_eq" ∈ dom r) ∧
  ("α_inv_pred" ∈ dom r → "𝒢" ∈ dom r) ∧
  ("C_gyro" ∈ dom r → "𝒢" ∈ dom r) ∧
  ("M_s" ∈ dom r → "𝒢" ∈ dom r).
End VerificationKeys.

(** The same for BSMCalculator, whose first stage writes the root and the
    coupling together. *)
Module CalculatorKeys.
Definition geometric : gset string := {[ "T_eq"; "ğ’¢"; "epsilon_BSM" ]}.
Definition zdc : gset string :=
  {[ "Î¼"; "Î±_inv_pred"; "Î±_inv_CODATA"; "zdc_error"; "zdc_rel_error" ]}.
Definition qcd : gset string := {[ "Î›_QCD_bare"; "Î›_QCD_1GeV"; "C_gyro" ]}.
Definition gravitational : gset string :=
  {[ "G_pred"; "á¸ _over_G"; "M_s" ]}.
Definition all : gset string := geometric ∪ zdc ∪ qcd ∪ gravitational.

Definition closed `{NumLib} (r : gmap string mpf) : Prop :=
  whole geometric (dom r) ∧ whole zdc (dom r) ∧
  whole qcd (dom r) ∧ whole gravitational (dom r) ∧
  ("Î±_inv_pred" ∈ dom r → "ğ’¢" ∈ dom r) ∧
  ("C_gyro" ∈ dom r → "Î±_inv_pred" ∈ dom r) ∧
  ("M_s" ∈ dom r → "ğ’¢" ∈ dom r).
End CalculatorKeys.

(** What a stage does, whatever its outcome: the cache grows by keys of
    [K] only, a closed cache stays closed, and the keys [own] are cached
    if the stage returns.  A quiet stage prints nothing. *)
Definition stage_spec `{NumLib} {A} (closed : gmap string mpf → Prop)
    (K own : gset string) (quiet : bool) (stage : M A) : Prop :=
  ∀ st,
    wp stage st (λ out st',
      extends K st st' ∧
      (closed (results st) → closed (results st')) ∧
      (quiet = true → stdout st' = stdout st) ∧
      ∀ a, out = inr a → own ⊆ dom (results st')).

(** A computation that, whatever its outcome, extends the state by keys
    of [K] and keeps a closed cache closed. *)
Definition keeps `{NumLib} {A} (closed : gmap string mpf → Prop)
    (K : gset string) (m : M A) : Prop :=
  ∀ st,
    wp m st (λ _ st',
      extends K st st' ∧ (closed (results st) → closed (results st'))).

(** The keys a method writes itself, and the keys the method and the
    stages it calls upstream write together: what a call on a new
    instance leaves in the cache when it returns. *)
Definition verification_own (m : VerificationCalls.method) : gset string :=
  match m with
  | VerificationCalls.transcendental_equation =>
      VerificationKeys.transcendental
  | VerificationCalls.geometric_coupling => VerificationKeys.geometric
  | VerificationCalls.zdc => VerificationKeys.zdc
  | VerificationCalls.qcd_scale => VerificationKeys.qcd
  | VerificationCalls.gravitational_constant =>
      VerificationKeys.gravitational
  | VerificationCalls.all_verifications => VerificationKeys.all
  end.

Definition verification_chain (m : VerificationCalls.method) : gset string :=
  match m with
  | VerificationCalls.transcendental_equation =>
      VerificationKeys.transcendental
  | VerificationCalls.geometric_coupling =>
      VerificationKeys.transcendental ∪ VerificationKeys.geometric
  | VerificationCalls.zdc =>
      VerificationKeys.transcendental ∪ VerificationKeys.geometric
      ∪ VerificationKeys.zdc
  | VerificationCalls.qcd_scale =>
      VerificationKeys.transcendental ∪ VerificationKeys.geometric
      ∪ VerificationKeys.qcd
  | VerificationCalls.gravitational_constant =>
      VerificationKeys.transcendental ∪ VerificationKeys.geometric
      ∪ VerificationKeys.gravitational
  | VerificationCalls.all_verifications => VerificationKeys.all
  end.

Definition calculator_own (m : CalculatorCalls.method) : gset string :=
  match m with
  | CalculatorCalls.geometric_factors => CalculatorKeys.geometric
  | CalculatorCalls.zdc => CalculatorKeys.zdc
  | CalculatorCalls.qcd_scale => CalculatorKeys.qcd
  | CalculatorCalls.gravitational_constant => CalculatorKeys.gravitational
  | CalculatorCalls.complete_analysis => CalculatorKeys.all
  end.

Definition calculator_chain (m : CalculatorCalls.method) : gset string :=
  match m with
  | CalculatorCalls.geometric_factors => CalculatorKeys.geometric
  | CalculatorCalls.zdc => CalculatorKeys.geometric ∪ CalculatorKeys.zdc
  | CalculatorCalls.qcd_scale =>
      CalculatorKeys.geometric ∪ CalculatorKeys.zdc ∪ CalculatorKeys.qcd
  | CalculatorCalls.gravitational_constant =>
      CalculatorKeys.geometric ∪ CalculatorKeys.gravitational
  | CalculatorCalls.complete_analysis => CalculatorKeys.all
  end.

(** A computation that, when it returns, returns the cache itself. *)
Definition returns_cache `{NumLib} (m : M (gmap string mpf)) : Prop :=
  ∀ st, wp m st (λ out st', ∀ v, out = inr v → v = results st').

(** The coupling both classes compute from a root:
    [1/(e * pi * sqrt2 * T_eq)]. *)
Definition coupling_of `{NumLib} (p : Z) (T : mpf) : res mpf :=
  mp_div p (mp_int 1)
    (mp_mul p (mp_mul p (mp_mul p (mp_e p) (mp_pi p))
                        (mp_sqrt p (mp_int 2))) T).
(** * Reasoning about a method run *)

#[local] Set Warnings "-clear-no-such-hyp".

Section Wp.
Context `{NumLib}.

Lemma wp_run {A} (m : M A) st Q :
  wp m st Q ↔ ∀ out st', m st = (out, st') → Q out st'.
Proof.
  unfold wp. split.
  - intros HQ out st' E. now rewrite E in HQ.
  - intros HQ. apply HQ. now destruct (m st).
Qed.

Lemma wp_mono {A} (m : M A) st (Q Q' : res A → St → Prop) :
  wp m st Q → (∀ out st', Q out st' → Q' out st') → wp m st Q'.
Proof. unfold wp. auto. Qed.

Lemma wp_ret {A} (x : A) st (Q : res A → St → Prop) :
  Q (inr x) st → wp (mret x) st Q.
Proof. done. Qed.

Lemma wp_bind {A B} (m : M A) (k : A → M B) st (Q : res B → St → Prop) :
  wp m st (λ out st1,
    match out with
    | inl e => Q (inl e) st1
    | inr a => wp (k a) st1 Q
    end) →
  wp (m ≫= k) st Q.
Proof.
  unfold wp, mbind, M_bind. destruct (m st) as [[e|a] st1]; simpl; auto.
Qed.

Lemma wp_lift {A} (r : res A) st (Q : res A → St → Prop) :
  Q r st → wp (lift r) st Q.
Proof. done. Qed.

Lemma wp_contains key st (Q : res bool → St → Prop) :
  Q (inr (bool_decide (is_Some (results st !! key)))) st →
  wp (contains key) st Q.
Proof. done. Qed.

Lemma wp_getitem key st (Q : res mpf → St → Prop) :
  (∀ v, results st !! key = Some v → Q (inr v) st) →
  (results st !! key = None → Q (inl (KeyError key)) st) →
  wp (getitem key) st Q.
Proof.
  unfold wp, getitem. destruct (results st !! key); simpl; auto.
Qed.

Lemma wp_setitem key v st (Q : res unit → St → Prop) :
  Q (inr tt) (mkSt (<[key := v]> (results st)) (stdout st)) →
  wp (setitem key v) st Q.
Proof. done. Qed.

Lemma wp_dict_update items st (Q : res unit → St → Prop) :
  Q (inr tt)
    (mkSt (foldl (λ r kv, <[kv.1 := kv.2]> r) (results st) items)
          (stdout st)) →
  wp (dict_update items) st Q.
Proof. done. Qed.

Lemma wp_print line st (Q : res unit → St → Prop) :
  Q (inr tt) (mkSt (results st) (stdout st ++ [line])) →
  wp (print line) st Q.
Proof. done. Qed.

Lemma wp_get_results st (Q : res (gmap string mpf) → St → Prop) :
  Q (inr (results st)) st → wp get_results st Q.
Proof. done. Qed.

(** The guard of every stage: nothing happens when the key is cached,
    otherwise the upstream stage runs. *)
Lemma wp_if_not_in {A} key (stage : M A) st (Q : res unit → St → Prop) :
  (is_Some (results st !! key) → Q (inr tt) st) →
  (results st !! key = None →
   wp stage st (λ out st1,
     match out with
     | inl e => Q (inl e) st1
     | inr _ => Q (inr tt) st1
     end)) →
  wp (if_not_in key stage) st Q.
Proof.
  intros Hin Hout. unfold if_not_in. apply wp_bind, wp_contains.
  case_bool_decide as Hc.
  - apply wp_ret. auto.
  - apply wp_bind. eapply wp_mono.
    + apply Hout. now apply eq_None_not_Some.
    + intros [e|a] st1; auto.
Qed.
End Wp.

(** Runs whose steps are known. *)

Section WpRun.
Context `{NumLib}.

Lemma wp_eq {A} (m : M A) st out st' :
  wp m st (λ o s, o = out ∧ s = st') → m st = (out, st').
Proof. unfold wp. destruct (m st). simpl. by intros [-> ->]. Qed.

Lemma wp_lift_inr {A B} (r : res A) v (k : A → M B) st Q :
  r = inr v → wp (k v) st Q → wp (lift r ≫= k) st Q.
Proof. intros ->. intros Hk. by apply wp_bind, wp_lift. Qed.

Lemma wp_lift_inl {A B} (r : res A) e (k : A → M B) st (Q : res B → St → Prop) :
  r = inl e → Q (inl e) st → wp (lift r ≫= k) st Q.
Proof. intros ->. intros Hk. by apply wp_bind, wp_lift. Qed.

Lemma wp_getitem_some {B} key v (k : mpf → M B) st Q :
  results st !! key = Some v → wp (k v) st Q → wp (getitem key ≫= k) st Q.
Proof.
  intros E Hk. apply wp_bind, wp_getitem; [|congruence].
  intros v' E'. by simplify_eq.
Qed.

Lemma wp_cached {A B} key (stage : M A) (k : unit → M B) st Q :
  is_Some (results st !! key) → wp (k tt) st Q →
  wp (if_not_in key stage ≫= k) st Q.
Proof.
  intros Hin Hk. apply wp_bind, wp_if_not_in; [done|].
  intros E. rewrite E in Hin. by destruct Hin.
Qed.
Lemma wp_bind_raises {A B} (m : M A) (k : A → M B) st e st1
    (Q : res B → St → Prop) :
  m st = (inl e, st1) → Q (inl e) st1 → wp (m ≫= k) st Q.
Proof. intros Hm HQ. apply wp_bind. unfold wp. by rewrite Hm. Qed.

Lemma wp_raises {A} (m : M A) st e (P : St → Prop) :
  wp m st (λ out st', out = inl e ∧ P st') →
  ∃ st', m st = (inl e, st') ∧ P st'.
Proof.
  unfold wp. destruct (m st) as [out st']. simpl.
  intros [-> HP]. by exists st'.
Qed.

Lemma wp_bind_returns {A B} (m : M A) (k : A → M B) st a st1
    (Q : res B → St → Prop) :
  m st = (inr a, st1) → wp (k a) st1 Q → wp (m ≫= k) st Q.
Proof. intros Hm HQ. apply wp_bind. unfold wp. by rewrite Hm. Qed.

Lemma wp_returns {A} (m : M A) st (P : A → St → Prop) :
  wp m st (λ out st', ∃ v, out = inr v ∧ P v st') →
  ∃ v st', m st = (inr v, st') ∧ P v st'.
Proof.
  unfold wp. destruct (m st) as [out st']. simpl.
  intros (v & -> & HP). by exists v, st'.
Qed.
End WpRun.

(** The state after a chain of steps, with its fields in view. *)
Ltac st_simpl := cbn [foldl fst snd results stdout].

(** One step of a run: the head of a bind, whatever primitive it is. *)
Ltac wp_step :=
  lazymatch goal with
  | |- wp (mret _) _ _ => apply wp_ret
  | |- wp (lift ?r ≫= _) _ _ =>
      apply wp_bind, wp_lift; destruct r eqn:?
  | |- wp (getitem _ ≫= _) _ _ =>
      apply wp_bind, wp_getitem; st_simpl; [intros ? ?|intros ?]
  | |- wp (setitem _ _ ≫= _) _ _ => apply wp_bind, wp_setitem; st_simpl
  | |- wp (dict_update _ ≫= _) _ _ =>
      apply wp_bind, wp_dict_update; st_simpl
  | |- wp (print _ ≫= _) _ _ => apply wp_bind, wp_print; st_simpl
  | |- wp get_results _ _ => apply wp_get_results
  end.


(** A lookup in a chain of inserts with literal keys. *)
Ltac lookup_inserts :=
  repeat first
    [ rewrite lookup_insert_eq
    | rewrite lookup_insert_ne by done ].

Section Guards.
Context `{NumLib}.

(** When the upstream stage is of no concern: whatever it did, the run
    goes on from some state, or stops with its exception. *)
Lemma wp_if_not_in_any {A} key (stage : M A) st (Q : res unit → St → Prop) :
  (∀ st1, Q (inr tt) st1) → (∀ e st1, Q (inl e) st1) →
  wp (if_not_in key stage) st Q.
Proof.
  intros Hok Herr. apply wp_if_not_in; [auto|].
  intros _. unfold wp. destruct (stage st) as [[e|a] st1]; simpl; auto.
Qed.
End Guards.

(** ** The Zero-Discrepancy Comparison *)

Section ZDC.
Context `{NumLib}.
Variable p : Z.

Lemma verification_zdc_wp st :
  wp (BSMVerification.verify_zdc p) st (λ out st',
    (∃ v, out = inr v) →
    ∃ G rel,
      results st' !! "𝒢" = Some G ∧
      results st' !! "α_inv_pred"
        = Some (mp_mul p (mp_mpf p 183615267343 (-8)) G) ∧
      mp_div p (mp_abs p (mp_sub p (mp_mul p (mp_mpf p 183615267343 (-8)) G)
                                   (mp_mpf p 137035999084 (-9))))
               (mp_mpf p 137035999084 (-9)) = inr rel ∧
      results st' !! "zdc_rel_error" = Some rel).
Proof.
  unfold BSMVerification.verify_zdc.
  apply wp_bind, wp_if_not_in_any; [|intros e st1 [? ?]; discriminate].
  intros st1. cbv zeta.
  wp_step; [|intros [? ?]; discriminate].
  wp_step; [intros [? ?]; discriminate|].
  wp_step. wp_step. intros _.
  exists v, m. st_simpl. by simplify_map_eq.
Qed.

Lemma calculator_zdc_wp st :
  wp (BSMCalculator.verify_zdc p) st (λ out st',
    (∃ v, out = inr v) →
    ∃ G rel,
      results st' !! "ğ’¢" = Some G ∧
      results st' !! "Î±_inv_pred"
        = Some (mp_mul p (mp_mpf p 183615267343 (-8)) G) ∧
      mp_div p (mp_abs p (mp_sub p (mp_mul p (mp_mpf p 183615267343 (-8)) G)
                                   (mp_mpf p 137035999084 (-9))))
               (mp_mpf p 137035999084 (-9)) = inr rel ∧
      results st' !! "zdc_rel_error" = Some rel).
Proof.
  unfold BSMCalculator.verify_zdc. cbv zeta.
  apply wp_bind, wp_if_not_in_any; [|intros e st1 [? ?]; discriminate].
  intros st1.
  repeat (wp_step; try (intros [? ?]; discriminate)).
  intros _. exists v, m. st_simpl. by simplify_map_eq.
Qed.
End ZDC.

(** C1. Whenever the Zero-Discrepancy Comparison returns, in either class,
    the cache holds the geometric coupling G, the predicted inverse
    fine-structure constant is the product of the literal 1836.15267343
    and that G, and the relative error is |1836.15267343 * G -
    137.035999084| divided by 137.035999084, each computed by the
    library's own multiplication, subtraction, absolute value and
    division at the working precision. *)
Theorem zdc_prediction_and_relative_error `{NumLib} (p : Z) :
  (∀ st out st',
     BSMVerification.verify_zdc p st = (inr out, st') →
     ∃ G rel,
       results st' !! "𝒢" = Some G ∧
       results st' !! "α_inv_pred"
         = Some (mp_mul p (mp_mpf p 183615267343 (-8)) G) ∧
       mp_div p (mp_abs p (mp_sub p
                   (mp_mul p (mp_mpf p 183615267343 (-8)) G)
                   (mp_mpf p 137035999084 (-9))))
                (mp_mpf p 137035999084 (-9)) = inr rel ∧
       results st' !! "zdc_rel_error" = Some rel) ∧
  (∀ st out st',
     BSMCalculator.verify_zdc p st = (inr out, st') →
     ∃ G rel,
       results st' !! "ğ’¢" = Some G ∧
       results st' !! "Î±_inv_pred"
         = Some (mp_mul p (mp_mpf p 183615267343 (-8)) G) ∧
       mp_div p (mp_abs p (mp_sub p
                   (mp_mul p (mp_mpf p 183615267343 (-8)) G)
                   (mp_mpf p 137035999084 (-9))))
                (mp_mpf p 137035999084 (-9)) = inr rel ∧
       results st' !! "zdc_rel_error" = Some rel).
Proof.
  split; intros st out st' Hrun.
  - pose proof (verification_zdc_wp p st) as Hwp.
    rewrite wp_run in Hwp. apply (Hwp _ _ Hrun). by exists out.
  - pose proof (calculator_zdc_wp p st) as Hwp.
    rewrite wp_run in Hwp. apply (Hwp _ _ Hrun). by exists out.
Qed.

(** ** The transcendental equilibrium solver *)

Section Solver.
Context `{NumLib}.
Variable p : Z.

Lemma verification_solver_raises st eps e :
  BSMVerification.epsilon_BSM p = inr eps →
  mp_findroot p (BSMVerification.f p (mp_mpf p 4350917 (-20)))
              (mp_mpf p 10 (-1)) = inl e →
  BSMVerification.verify_transcendental_equation p st = (inl e, st).
Proof.
  intros Heps Hroot. apply wp_eq.
  unfold BSMVerification.verify_transcendental_equation. cbv zeta.
  eapply wp_lift_inr; [exact Heps|].
  eapply wp_lift_inl; [exact Hroot|]. done.
Qed.

Lemma calculator_solver_raises st e :
  mp_findroot p (BSMCalculator.transcendental_eq p (mp_mpf p 4350917 (-20)))
              (mp_mpf p 10 (-1)) = inl e →
  BSMCalculator.compute_geometric_factors p st = (inl e, st).
Proof.
  intros Hroot. apply wp_eq.
  unfold BSMCalculator.compute_geometric_factors. cbv zeta.
  eapply wp_lift_inl; [exact Hroot|]. done.
Qed.
End Solver.

(** C6. When [mp.findroot] gives up on the equilibrium equation with an
    exception, the solver stage of either class raises that exception and
    leaves the instance as it was; the driver, which calls the solver
    first and catches nothing, raises it too, having printed its heading
    and written nothing: a cache without T_eq is still without it. *)
Theorem solver_failure_propagates `{NumLib} (p : Z) (c hbar G : float) :
  (∀ st eps e,
     BSMVerification.epsilon_BSM p = inr eps →
     mp_findroot p (BSMVerification.f p (mp_mpf p 4350917 (-20)))
                 (mp_mpf p 10 (-1)) = inl e →
     BSMVerification.verify_transcendental_equation p st = (inl e, st) ∧
     ∃ st', BSMVerification.run_all_verifications p st = (inl e, st') ∧
            results st' = results st ∧
            (results st !! "T_eq" = None → results st' !! "T_eq" = None)) ∧
  (∀ st e,
     mp_findroot p
       (BSMCalculator.transcendental_eq p (mp_mpf p 4350917 (-20)))
       (mp_mpf p 10 (-1)) = inl e →
     BSMCalculator.compute_geometric_factors p st = (inl e, st) ∧
     ∃ st', BSMCalculator.run_complete_analysis p c hbar G st = (inl e, st') ∧
            results st' = results st ∧
            (results st !! "T_eq" = None → results st' !! "T_eq" = None)).
Proof.
  split.
  - intros st eps e Heps Hroot.
    split; [by eapply verification_solver_raises|].
    apply wp_raises. unfold BSMVerification.run_all_verifications.
    do 5 wp_step.
    eapply wp_bind_raises; [by eapply verification_solver_raises|].
    st_simpl. done.
  - intros st e Hroot.
    split; [by eapply calculator_solver_raises|].
    apply wp_raises. unfold BSMCalculator.run_complete_analysis.
    do 4 wp_step.
    eapply wp_bind_raises; [by eapply calculator_solver_raises|].
    st_simpl. done.
Qed.

(** ** The precision of the process *)

Section Precision.
Context `{NumLib}.

Lemma new_fresh cls precision w :
  heap w !! (new cls precision w).1 = None.
Proof.
  destruct cls; simpl; apply not_elem_of_dom, is_fresh.
Qed.

Lemma new_heap cls precision w :
  ∃ o, heap (new cls precision w).2 = <[(new cls precision w).1 := o]> (heap w)
       ∧ obj_results o = ∅.
Proof. destruct cls; simpl; eexists; split; reflexivity. Qed.

Lemma new_dps cls precision w :
  mp_dps (new cls precision w).2
  = default (match cls with Verification => 200 | Calculator => 100 end)
            precision.
Proof. by destruct cls. Qed.

Lemma new_console cls precision w :
  console (new cls precision w).2 = console w.
Proof. by destruct cls. Qed.
End Precision.

(** C7, as the code has it. An instance owns its cache, not a precision:
    the precision is the one [mp.mp.dps] of the process. Constructing a
    second instance, of either class, gives a different object, leaves
    the first one's cache as it was, and sets the precision to the second
    one's; a stage of the first instance called afterwards runs under that
    precision. *)
Theorem precision_is_shared_between_instances `{NumLib}
    (cls1 cls2 : pipeline_class) (p q : Z) (w : Process)
    {A} (method : Z → M A) :
  let a := (new cls1 (Some p) w).1 in
  let w1 := (new cls1 (Some p) w).2 in
  let b := (new cls2 (Some q) w1).1 in
  let w2 := (new cls2 (Some q) w1).2 in
  a ≠ b ∧
  mp_dps w1 = p ∧
  mp_dps w2 = q ∧
  heap w2 !! a = heap w1 !! a ∧
  ∃ o, heap w2 !! a = Some o ∧ obj_results o = ∅ ∧
       call a method w2 =
         Some (let '(out, st) := method q (mkSt ∅ (console w)) in
               (out, mkProcess q
                       (<[a := obj_with_results o (results st)]> (heap w2))
                       (stdout st))).
Proof.
  intros a w1 b w2.
  destruct (new_heap cls1 (Some p) w) as (o & Hw1 & Ho).
  destruct (new_heap cls2 (Some q) w1) as (o2 & Hw2 & Ho2).
  fold a w1 in Hw1. fold b w2 in Hw2.
  assert (heap w1 !! a = Some o) as Ha by (rewrite Hw1; apply lookup_insert_eq).
  assert (a ≠ b) as Hab.
  { intros Heq. pose proof (new_fresh cls2 (Some q) w1) as Hb.
    fold b in Hb. rewrite <- Heq in Hb. congruence. }
  assert (heap w2 !! a = Some o) as Ha2
    by (rewrite Hw2, lookup_insert_ne by done; exact Ha).
  split; [exact Hab|].
  split; [unfold w1; by rewrite new_dps|].
  split; [unfold w2; by rewrite new_dps|].
  split; [congruence|].
  exists o. split; [exact Ha2|]. split; [exact Ho|].
  unfold call. rewrite Ha2. simpl. rewrite Ho.
  unfold w2 at 1 2. rewrite new_dps, new_console. simpl.
  unfold w1 at 1. rewrite new_console.
  replace (mp_dps w2) with q by (unfold w2; by rewrite new_dps).
  by destruct (method q (mkSt ∅ (console w))).
Qed.

(** ** The QCD confinement scale: what the stage leaves in the cache *)

Section QcdEntries.
Context `{NumLib}.
Variable p : Z.

Lemma verification_qcd_wp st :
  is_Some (results st !! "𝒢") →
  wp (BSMVerification.verify_qcd_scale p) st (λ out st',
    ∀ v, out = inr v →
      results st' !! "Λ_QCD_1GeV" = Some v ∧
      is_Some (results st' !! "Λ_QCD_bare") ∧
      is_Some (results st' !! "C_gyro") ∧
      dom (results st')
        = dom (results st) ∪ {[ "C_gyro"; "Λ_QCD_bare"; "Λ_QCD_1GeV" ]}).
Proof.
  intros HG. unfold BSMVerification.verify_qcd_scale. cbv zeta.
  eapply wp_cached; [done|].
  repeat (wp_step; try (intros ? ?; discriminate)).
  intros v [= <-]. st_simpl. rewrite !dom_insert_L.
  split_and!; [lookup_inserts; by eauto..|].
  apply set_eq. intros k. rewrite !elem_of_union, !elem_of_singleton. tauto.
Qed.

Lemma calculator_qcd_wp st :
  is_Some (results st !! "Î±_inv_pred") →
  wp (BSMCalculator.compute_qcd_scale p) st (λ out st',
    ∀ v, out = inr v →
      results st' !! "Î›_QCD_1GeV" = Some v ∧
      is_Some (results st' !! "Î›_QCD_bare") ∧
      is_Some (results st' !! "C_gyro") ∧
      dom (results st')
        = dom (results st) ∪ {[ "C_gyro"; "Î›_QCD_bare"; "Î›_QCD_1GeV" ]}).
Proof.
  intros HG. unfold BSMCalculator.compute_qcd_scale. cbv zeta.
  eapply wp_cached; [done|].
  repeat (wp_step; try (intros ? ?; discriminate)).
  intros v' [= <-]. st_simpl. rewrite !dom_insert_L.
  split_and!; [lookup_inserts; by eauto..|].
  apply set_eq. intros k. rewrite !elem_of_union, !elem_of_singleton. tauto.
Qed.
End QcdEntries.

(** C8, as the code has it. When the confinement-scale stage returns, with
    its upstream value already cached, the cache holds the gyroscopic
    factor C_gyro and both scales under their names, the evolved scale
    being the value returned; and these three are all the stage added:
    the five sub-terms of C_gyro are not entries of the cache. *)
Theorem qcd_stage_adds_three_entries `{NumLib} (p : Z) :
  (∀ st out st',
     is_Some (results st !! "𝒢") →
     BSMVerification.verify_qcd_scale p st = (inr out, st') →
     results st' !! "Λ_QCD_1GeV" = Some out ∧
     is_Some (results st' !! "Λ_QCD_bare") ∧
     is_Some (results st' !! "C_gyro") ∧
     dom (results st')
       = dom (results st) ∪ {[ "C_gyro"; "Λ_QCD_bare"; "Λ_QCD_1GeV" ]}) ∧
  (∀ st out st',
     is_Some (results st !! "Î±_inv_pred") →
     BSMCalculator.compute_qcd_scale p st = (inr out, st') →
     results st' !! "Î›_QCD_1GeV" = Some out ∧
     is_Some (results st' !! "Î›_QCD_bare") ∧
     is_Some (results st' !! "C_gyro") ∧
     dom (results st')
       = dom (results st) ∪ {[ "C_gyro"; "Î›_QCD_bare"; "Î›_QCD_1GeV" ]}).
Proof.
  split; intros st out st' Hdep Hrun.
  - pose proof (verification_qcd_wp p st Hdep) as Hwp.
    rewrite wp_run in Hwp. exact (Hwp _ _ Hrun out eq_refl).
  - pose proof (calculator_qcd_wp p st Hdep) as Hwp.
    rewrite wp_run in Hwp. exact (Hwp _ _ Hrun out eq_refl).
Qed.

(** ** The digit count of the report *)

Section Digits.
Context `{NumLib}.
Variable p : Z.

(** The guard with an upstream stage that keeps a relation [R] between
    the state it starts from and the one it ends in. *)
Lemma wp_if_not_in_rel {A} key (stage : M A) st (R : St → Prop)
    (Q : res unit → St → Prop) :
  R st →
  wp stage st (λ _ st1, R st1) →
  (∀ st1, R st1 → Q (inr tt) st1) →
  (∀ e st1, R st1 → Q (inl e) st1) →
  wp (if_not_in key stage) st Q.
Proof.
  intros HR Hstage Hok Herr. apply wp_if_not_in; [auto|].
  intros _. eapply wp_mono; [exact Hstage|].
  intros [e|a] st1; auto.
Qed.

Lemma transcendental_keeps_rel_error st :
  wp (BSMVerification.verify_transcendental_equation p) st
     (λ _ st', keeps_rel_error st st').
Proof.
  unfold BSMVerification.verify_transcendental_equation. cbv zeta.
  repeat (wp_step; try done).
  split; [st_simpl; by lookup_inserts|done].
Qed.

Lemma geometric_keeps_rel_error st :
  wp (BSMVerification.verify_geometric_coupling p) st
     (λ _ st', keeps_rel_error st st').
Proof.
  unfold BSMVerification.verify_geometric_coupling. cbv zeta.
  apply wp_bind.
  apply (wp_if_not_in_rel _ _ _ (keeps_rel_error st));
    [done | apply transcendental_keeps_rel_error | |by intros].
  intros st1 [Hk Ho].
  repeat (wp_step; try done).
  split; st_simpl; [by lookup_inserts|done].
Qed.

Lemma qcd_keeps_rel_error st :
  wp (BSMVerification.verify_qcd_scale p) st
     (λ _ st', keeps_rel_error st st').
Proof.
  unfold BSMVerification.verify_qcd_scale. cbv zeta.
  apply wp_bind.
  apply (wp_if_not_in_rel _ _ _ (keeps_rel_error st));
    [done | apply geometric_keeps_rel_error | |by intros].
  intros st1 [Hk Ho].
  repeat (wp_step; try done).
  split; st_simpl; [by lookup_inserts|done].
Qed.

Lemma gravitational_keeps_rel_error st :
  wp (BSMVerification.verify_gravitational_constant p) st
     (λ _ st', keeps_rel_error st st').
Proof.
  unfold BSMVerification.verify_gravitational_constant. cbv zeta.
  apply wp_bind.
  apply (wp_if_not_in_rel _ _ _ (keeps_rel_error st));
    [done | apply geometric_keeps_rel_error | |by intros].
  intros st1 [Hk Ho].
  repeat (wp_step; try done).
  split; st_simpl; [by lookup_inserts|done].
Qed.

Lemma calculator_zdc_digits st :
  wp (BSMCalculator.verify_zdc p) st (λ out st',
    ∀ v, out = inr v →
    ∃ rel n,
      results st' !! "zdc_rel_error" = Some rel ∧
      BSMCalculator.significant_digits p rel = inr n ∧
      last (stdout st') = Some ("Significant digits = " +:+ pretty n)).
Proof.
  unfold BSMCalculator.verify_zdc. cbv zeta.
  apply wp_bind, wp_if_not_in_any; [|by intros].
  intros st1.
  repeat (wp_step; try (intros ? ?; discriminate)).
  intros ? _. eexists _, _. st_simpl.
  split; [by lookup_inserts|]. split; [eassumption|].
  by rewrite last_snoc.
Qed.

Lemma verification_report_digits st :
  wp (BSMVerification.run_all_verifications p) st (λ out st',
    ∀ v, out = inr v →
    ∃ rel n,
      results st' !! "zdc_rel_error" = Some rel ∧
      BSMVerification.significant_digits p rel = inr n ∧
      ("Significant digits = " +:+ pretty n) ∈ stdout st').
Proof.
  unfold BSMVerification.run_all_verifications.
  do 5 wp_step.
  apply wp_bind. apply wp_run. intros [e|[T_eq ε]] st1 _; [by intros|].
  do 4 wp_step.
  apply wp_bind. apply wp_run. intros [e|G] st2 _; [by intros|].
  do 2 wp_step. wp_step; [|by intros]. do 3 wp_step.
  apply wp_bind. apply wp_run. intros [e|[[α_pred α_CODATA] error]] st3 _;
    [by intros|].
  do 5 wp_step.
  apply wp_bind, wp_getitem; st_simpl; [intros rel Hrel|by intros].
  wp_step; [by intros|]. wp_step.
  apply wp_bind, wp_getitem; st_simpl; [intros rel' Hrel'|by intros].
  assert (rel' = rel) as -> by congruence.
  apply wp_bind, wp_lift.
  destruct (BSMVerification.significant_digits p rel) as [e|n] eqn:Hn;
    [by intros|].
  wp_step.
  match goal with
  | |- wp _ ?s _ =>
      assert (results s !! "zdc_rel_error" = Some rel ∧
              ("Significant digits = " +:+ pretty n) ∈ stdout s) as Hkeep
        by (st_simpl; split; [done|set_solver]);
      generalize dependent s
  end.
  intros st4 [Hrel4 Hline].
  do 2 wp_step.
  apply wp_bind. eapply wp_mono; [apply qcd_keeps_rel_error|].
  intros [e|Λ] st5 [Hk Ho]; [by intros|]. cbn [results stdout] in Hk, Ho.
  wp_step; [|by intros]. wp_step. wp_step; [|by intros]. do 5 wp_step.
  apply wp_bind. eapply wp_mono; [apply gravitational_keeps_rel_error|].
  intros [e|[G_pred Gdot]] st6 [Hk' Ho']; [by intros|].
  cbn [results stdout] in Hk', Ho'.
  wp_step; [|by intros]. do 2 wp_step. wp_step; [|by intros]. do 5 wp_step.
  intros ? _. exists rel, n. st_simpl.
  split; [congruence|]. split; [done|].
  rewrite Ho', Ho. set_solver.
Qed.
End Digits.

(** C5, as the code has it. Neither report tests the relative error for
    zero. The calculator's comparison stage and the verification driver
    return only after [int(-log10(rel))] has returned an integer n for the
    relative error rel of the cache, whatever rel is, and they print
    the line "Significant digits = n"; an exception of that evaluation
    ends the run. *)
Theorem digit_count_is_always_computed `{NumLib} (p : Z) :
  (∀ st out st',
     BSMCalculator.verify_zdc p st = (inr out, st') →
     ∃ rel n,
       results st' !! "zdc_rel_error" = Some rel ∧
       BSMCalculator.significant_digits p rel = inr n ∧
       last (stdout st') = Some ("Significant digits = " +:+ pretty n)) ∧
  (∀ st out st',
     BSMVerification.run_all_verifications p st = (inr out, st') →
     ∃ rel n,
       results st' !! "zdc_rel_error" = Some rel ∧
       BSMVerification.significant_digits p rel = inr n ∧
       ("Significant digits = " +:+ pretty n) ∈ stdout st').
Proof.
  split; intros st out st' Hrun.
  - pose proof (calculator_zdc_digits p st) as Hwp.
    rewrite wp_run in Hwp. exact (Hwp _ _ Hrun out eq_refl).
  - pose proof (verification_report_digits p st) as Hwp.
    rewrite wp_run in Hwp. exact (Hwp _ _ Hrun out eq_refl).
Qed.

(** * Running the stages in exact arithmetic *)


Module ExactFacts.
Import Exact.
Local Open Scope R_scope.

Lemma x_div_fin x y : y ≠ 0 → x_div (Fin x) (Fin y) = inr (Fin (x / y)).
Proof. intros Hy. unfold x_div. by destruct (Req_dec_T y 0). Qed.

Lemma x_div_zero x : x_div (Fin x) (Fin 0) = inl ZeroDivisionError.
Proof. unfold x_div. by destruct (Req_dec_T 0 0). Qed.

Lemma x_log_fin x : 0 < x → x_log (Fin x) = Fin (ln x).
Proof. intros Hx. unfold x_log. by destruct (Rlt_dec 0 x). Qed.

Lemma x_sqrt_fin x : 0 <= x → x_sqrt (Fin x) = Fin (R_sqrt.sqrt x).
Proof. intros Hx. unfold x_sqrt. by destruct (Rle_dec 0 x). Qed.

Lemma x_pow_fin x y : 0 < x → x_pow (Fin x) (Fin y) = inr (Fin (Rpower x y)).
Proof. intros Hx. unfold x_pow. by destruct (Rlt_dec 0 x). Qed.

Lemma x_pow_int_fin x n :
  (0 <= n)%Z → x_pow_int (Fin x) n = inr (Fin (x ^ Z.to_nat n)).
Proof.
  intros Hn. unfold x_pow_int. by destruct (Z.leb_spec 0 n); [|lia].
Qed.

Lemma e_gt_2 : 2 < exp 1.
Proof. generalize (exp_ineq1 1). lra. Qed.

Lemma sqrt2_pos : 0 < R_sqrt.sqrt 2.
Proof. apply sqrt_lt_R0. lra. Qed.

Lemma log_arg_pos : 0 < 1 + exp 1 / PI.
Proof.
  assert (0 < exp 1 / PI); [|lra].
  apply Rdiv_lt_0_compat; [apply exp_pos | apply PI_RGT_0].
Qed.

Lemma log_term_pos : 0 < ln (1 + exp 1 / PI).
Proof.
  rewrite <- ln_1. apply ln_increasing; [lra|].
  assert (0 < exp 1 / PI); [|lra].
  apply Rdiv_lt_0_compat; [apply exp_pos | apply PI_RGT_0].
Qed.
End ExactFacts.

Module ExactRuns.
Import Exact ExactFacts.
Local Open Scope R_scope.

(** A decimal or binary literal as the rational it is. *)
Ltac norm_scaled :=
  repeat match goal with
  | |- context [scaled ?b ?m ?e] =>
      let t := eval vm_compute in (0 <=? e)%Z in
      lazymatch t with
      | true =>
          let v := eval vm_compute in (m * b ^ e)%Z in
          change (scaled b m e) with (IZR v)
      | false =>
          let v := eval vm_compute in (b ^ (- e))%Z in
          change (scaled b m e) with (IZR m / IZR v)
      end
  end.

(** The divisors of the stages are products and powers of literals, e, pi
    and the square root of 2. *)
Ltac nonzero :=
  first
    [ by (norm_scaled; lra)
    | by (generalize PI_RGT_0; lra)
    | by (generalize e_gt_2; lra)
    | by (generalize sqrt2_pos; lra)
    | by (generalize log_term_pos; lra)
    | apply pow_nonzero; nonzero
    | apply Rmult_integral_contrapositive_currified; nonzero
    | apply Rinv_neq_0_compat; nonzero
    | unfold Rdiv at 1;
      apply Rmult_integral_contrapositive_currified;
      [nonzero | apply Rinv_neq_0_compat; nonzero] ].

(** A Python float as the dyadic rational it is. *)
Ltac norm_float :=
  repeat match goal with
  | |- context [x_float ?f] =>
      let v := eval vm_compute in (Prim2SF f) in
      lazymatch v with
      | S754_finite false ?m ?e =>
          change (x_float f) with (Fin (scaled 2 (Z.pos m) e))
      end
  end.

(** Two outcomes of a run that differ only in how their reals are
    written. *)
Ltac same_run :=
  repeat match goal with
  | |- (_, _) = (_, _) => f_equal
  | |- _ ∧ _ => split
  | |- inr _ = inr _ => f_equal
  | |- mkSt _ _ = mkSt _ _ => f_equal
  | |- <[_ := _]> _ = <[_ := _]> _ => f_equal
  | |- Fin _ = Fin _ => f_equal
  end; try reflexivity.

Ltac xsimpl :=
  cbn [numlib mp_mpf mp_e mp_pi mp_int mp_float mp_add mp_sub mp_mul
       mp_div mp_neg mp_abs mp_pow mp_pow_int mp_sqrt mp_exp mp_log mp_log10
       mp_findroot mp_to_int mp_str mp_format float_pow float_format
       x_add x_sub x_mul x_neg x_abs x_exp].

Ltac xstep :=
  xsimpl;
  lazymatch goal with
  | |- wp (lift (x_div (Fin _) (Fin _)) ≫= _) _ _ =>
      eapply wp_lift_inr; [apply x_div_fin|]
  | |- wp (lift (x_pow_int (Fin _) _) ≫= _) _ _ =>
      eapply wp_lift_inr; [apply x_pow_int_fin; lia|]
  | |- wp (lift (x_pow (Fin _) (Fin _)) ≫= _) _ _ =>
      eapply wp_lift_inr; [apply x_pow_fin|]
  | |- wp (lift (int_truediv _ _) ≫= _) _ _ =>
      eapply wp_lift_inr; [vm_compute; reflexivity|]
  | |- wp (getitem _ ≫= _) _ _ =>
      eapply wp_getitem_some; [st_simpl; by simplify_map_eq|]
  | |- wp (if_not_in _ _ ≫= _) _ _ =>
      eapply wp_cached; [st_simpl; by simplify_map_eq|]
  | _ => wp_step
  end.

Section Runs.
Variable X : Externals.
Variable p : Z.

Lemma verification_zdc_run st g :
  results (H:=numlib X) st !! "𝒢" = Some (Fin g) →
  BSMVerification.verify_zdc (H:=numlib X) p st =
    (inr (Fin (183615267343 / 100000000 * g),
          Fin (137035999084 / 1000000000),
          Fin (Rabs (183615267343 / 100000000 * g
                     - 137035999084 / 1000000000))),
     mkSt (<["zdc_rel_error" :=
               Fin (Rabs (183615267343 / 100000000 * g
                          - 137035999084 / 1000000000)
                    / (137035999084 / 1000000000))]>
           (<["zdc_error" :=
               Fin (Rabs (183615267343 / 100000000 * g
                          - 137035999084 / 1000000000))]>
           (<["α_inv_CODATA" := Fin (137035999084 / 1000000000)]>
           (<["α_inv_pred" := Fin (183615267343 / 100000000 * g)]>
              (results st)))))
          (stdout st)).
Proof.
  intros HG. apply wp_eq. unfold BSMVerification.verify_zdc.
  xstep. cbv zeta. xstep. xstep.
  { norm_scaled. lra. }
  xstep. xstep. st_simpl. norm_scaled.
  split; [|f_equal]; repeat f_equal; lra.
Qed.
End Runs.
End ExactRuns.

Module ExactZdc.
Import Exact ExactFacts ExactRuns.
Local Open Scope R_scope.

Lemma x_log10_pos x : 0 < x → x_log10 (Fin x) = Fin (ln x / ln 10).
Proof. intros Hx. unfold x_log10. by rewrite x_log_fin. Qed.

Lemma x_log10_zero : x_log10 (Fin 0) = NInf.
Proof.
  unfold x_log10, x_log.
  destruct (Rlt_dec 0 0) as [Hlt|_]; [lra|].
  by destruct (Rlt_dec 0 0) as [Hlt|_]; [lra|].
Qed.

Section Runs.
Variable p : Z.

Lemma calculator_zdc_returns (st : St (H:=numlib stalled)) g :
  results st !! "ğ’¢" = Some (Fin g) →
  183615267343 / 100000000 * g ≠ 137035999084 / 1000000000 →
  ∃ out st', BSMCalculator.verify_zdc (H:=numlib stalled) p st = (inr out, st').
Proof.
  intros HG Hne.
  cut (wp (BSMCalculator.verify_zdc (H:=numlib stalled) p) st
          (λ out _, ∃ v, out = inr v)).
  { unfold wp. destruct (BSMCalculator.verify_zdc p st) as [out st'].
    simpl. intros [v ->]. by exists v, st'. }
  unfold BSMCalculator.verify_zdc. cbv zeta.
  xstep. xstep. xstep.
  { norm_scaled. lra. }
  do 8 xstep.
  eapply wp_lift_inr; [reflexivity|]. xstep.
  eapply wp_lift_inr; [reflexivity|]. xstep.
  eapply wp_lift_inr.
  { unfold BSMCalculator.significant_digits. xsimpl.
    rewrite x_log10_pos; [reflexivity|].
    norm_scaled. apply Rdiv_lt_0_compat; [|lra].
    apply Rabs_pos_lt. lra. }
  xstep. xstep. by eexists.
Qed.
End Runs.
End ExactZdc.

Module ExactSolver.
Import Exact ExactFacts ExactRuns.
Local Open Scope R_scope.

Lemma epsilon_BSM_defined X p :
  ∃ eps, BSMVerification.epsilon_BSM (H:=numlib X) p = inr eps.
Proof.
  unfold BSMVerification.epsilon_BSM. cbv zeta. xsimpl.
  repeat first
    [ rewrite x_pow_int_fin by lia
    | rewrite x_div_fin by nonzero
    | progress cbn [mbind res_bind]
    | progress xsimpl ].
  by eexists.
Qed.
End ExactSolver.

Module ExactQcd.
Import Exact ExactFacts ExactRuns.
Local Open Scope R_scope.

Lemma C_gyro_pos : 0 < C_gyro.
Proof.
  pose proof sqrt2_pos. pose proof e_gt_2. pose proof log_term_pos.
  unfold C_gyro, term4.
  repeat apply Rmult_lt_0_compat; try lra; apply Rinv_0_lt_compat; lra.
Qed.

Lemma Λ_bare_pos a : 0 < a → 0 < Λ_bare a.
Proof.
  intros Ha. pose proof C_gyro_pos as HC. unfold Λ_bare.
  assert (0 < a * C_gyro) as Hpos by (apply Rmult_lt_0_compat; lra).
  lra.
Qed.

Lemma Λ_bare_inj a b : Λ_bare a = Λ_bare b → a = b.
Proof.
  pose proof C_gyro_pos as HC. unfold Λ_bare. intros Heq.
  assert (a * C_gyro = b * C_gyro) as Hab by lra.
  apply Rmult_eq_reg_r in Hab; lra.
Qed.

(** The two evolution factors: one shrinks the bare scale, the other
    stretches it. *)
Lemma evolution_factors_differ b :
  0 < b → b * exp (- (2 * PI / 11)) ≠ b * exp (PI / 9).
Proof.
  intros Hb Heq. pose proof PI_RGT_0.
  assert (exp (- (2 * PI / 11)) < exp (PI / 9)) as Hlt
    by (apply exp_increasing; lra).
  apply Rmult_eq_reg_l in Heq; lra.
Qed.

Section Runs.
Variable X : Externals.
Variable p : Z.

Lemma verification_qcd_run st g :
  results (H:=numlib X) st !! "𝒢" = Some g →
  BSMVerification.verify_qcd_scale (H:=numlib X) p st =
    (inr (Fin (Λ_bare (137035999084 / 1000000000) * exp (- (2 * PI / 11)))),
     mkSt (<["Λ_QCD_1GeV" :=
               Fin (Λ_bare (137035999084 / 1000000000)
                    * exp (- (2 * PI / 11)))]>
           (<["Λ_QCD_bare" := Fin (Λ_bare (137035999084 / 1000000000))]>
           (<["C_gyro" := Fin C_gyro]> (results st))))
          (stdout st)).
Proof.
  intros HG. apply wp_eq.
  unfold BSMVerification.verify_qcd_scale. cbv zeta.
  xstep. xstep; [nonzero|].
  xsimpl. rewrite (x_sqrt_fin 2) by lra.
  xstep; [nonzero|].
  xstep; [nonzero|].
  xstep; [nonzero|].
  xsimpl. rewrite x_log_fin by apply log_arg_pos.
  xstep; [nonzero|]. xstep. norm_float. xsimpl.
  xstep; [nonzero|]. xstep; [nonzero|].
  xstep. norm_float. xsimpl.
  xstep; [nonzero|]. xstep; [nonzero|].
  xstep; [norm_scaled; lra|].
  xstep. xstep. st_simpl. 
  assert (Hbare :
    scaled 10 51099895 (-2) / (1 / scaled 10 137035999084 (-9))
    * (1 / (2 * R_sqrt.sqrt 2) * ((exp 1 + - (1)) / (exp 1 + 1))
       * (1 / ln (1 + exp 1 / PI)) * scaled 2 6004799503160661 (-52)
       * scaled 10 214 (-2))
    / scaled 2 8589934592000000 (-33)
    = Λ_bare (137035999084 / 1000000000)).
  { unfold Λ_bare, C_gyro, term4. norm_scaled. field.
    generalize sqrt2_pos e_gt_2 log_term_pos. intros. repeat split; lra. }
  rewrite Hbare.
  assert (Hy :
    IZR 2 * PI
    / (scaled 2 5066549580791808 (-49)
       * (1 / scaled 10 10 (-1) + - (1 / scaled 10 45 (-2))))
    = - (2 * PI / 11)).
  { norm_scaled. field. }
  rewrite Hy. same_run.
Qed.

Lemma calculator_qcd_run st a :
  results (H:=numlib X) st !! "Î±_inv_pred" = Some (Fin a) → a ≠ 0 →
  BSMCalculator.compute_qcd_scale (H:=numlib X) p st =
    (inr (Fin (Λ_bare a * exp (PI / 9))),
     mkSt (<["C_gyro" := Fin C_gyro]>
           (<["Î›_QCD_1GeV" := Fin (Λ_bare a * exp (PI / 9))]>
           (<["Î›_QCD_bare" := Fin (Λ_bare a)]> (results st))))
          (stdout st
           ++ [nl +:+ str_mul "=" 60]
           ++ ["QCD SCALE CALCULATION"%string]
           ++ [str_mul "=" 60]
           ++ ["C_gyro = " +:+ show X (Fin C_gyro)]
           ++ ["Î›_QCD (bare) = " +:+ show X (Fin (Λ_bare a)) +:+ " MeV"]
           ++ ["Î›_QCD (1 GeV) = "
               +:+ show X (Fin (Λ_bare a * exp (PI / 9))) +:+ " MeV"]
           ++ ["Experimental range: 150-200 MeV"%string])).
Proof.
  intros Ha Hne. apply wp_eq.
  pose proof sqrt2_pos. pose proof e_gt_2. pose proof log_term_pos.
  unfold BSMCalculator.compute_qcd_scale. cbv zeta.
  xstep. xstep. xstep; [done|].
  xsimpl. rewrite (x_sqrt_fin 2) by lra.
  xstep; [nonzero|].
  xstep; [nonzero|].
  xstep; [nonzero|].
  xsimpl. rewrite x_log_fin by apply log_arg_pos.
  xstep; [nonzero|]. xstep. norm_float. xsimpl.
  xstep; [nonzero|]. xstep; [nonzero|].
  xstep. 
  replace (PrimFloat.mul 9 (float_of_int 2)) with 18%float
    by (vm_compute; reflexivity).
  norm_float. xsimpl.
  xstep; [nonzero|].
  assert (HC :
    1 / (2 * R_sqrt.sqrt 2) * ((exp 1 + - (1)) / (exp 1 + 1))
    / ln (1 + exp 1 / PI)
    * (scaled 2 6004799503160661 (-52) * scaled 10 214 (-2))
    = C_gyro).
  { unfold C_gyro, term4. norm_scaled. field. repeat split; lra. }
  rewrite HC.
  assert (Hbare :
    scaled 10 51099895 (-2) / (1 / a) * C_gyro
    / scaled 2 8589934592000000 (-33) = Λ_bare a).
  { unfold Λ_bare. norm_scaled. field. done. }
  rewrite Hbare.
  assert (Hy : IZR 2 * PI / scaled 2 5066549580791808 (-48) = PI / 9).
  { norm_scaled. field. }
  rewrite Hy.
  do 9 xstep. st_simpl. rewrite <- !app_assoc. same_run.
Qed.
End Runs.
End ExactQcd.

Module ExactGravity.
Import Exact ExactFacts ExactRuns.
Local Open Scope R_scope.

Section Runs.
Variable X : Externals.
Variable p : Z.

Lemma verification_transcendental_run st T :
  mp_findroot (NumLib:=numlib X) p
    (BSMVerification.f p (mp_mpf p 4350917 (-20))) (mp_mpf p 10 (-1))
    = inr (Fin T) →
  BSMVerification.verify_transcendental_equation (H:=numlib X) p st =
    (inr (Fin T, Fin (scaled 10 4350917 (-20))),
     mkSt (<["log_term" := Fin (ln (1 + exp 1 / PI))]>
           (<["T_eq" := Fin T]>
           (<["epsilon_BSM" := Fin (scaled 10 4350917 (-20))]> (results st))))
          (stdout st)).
Proof.
  intros Hroot. apply wp_eq.
  destruct (ExactSolver.epsilon_BSM_defined X p) as [eps Heps].
  unfold BSMVerification.verify_transcendental_equation. cbv zeta.
  eapply wp_lift_inr; [exact Heps|].
  eapply wp_lift_inr; [exact Hroot|].
  xstep; [nonzero|].
  xsimpl. rewrite x_log_fin by apply log_arg_pos.
  xstep. xstep. same_run.
Qed.

Lemma verification_geometric_run st T :
  results (H:=numlib X) st !! "T_eq" = Some (Fin T) → T ≠ 0 →
  BSMVerification.verify_geometric_coupling (H:=numlib X) p st =
    (inr (Fin (1 / (exp 1 * PI * R_sqrt.sqrt 2 * T))),
     mkSt (<["𝒢_error" :=
               Fin (Rabs (1 / (exp 1 * PI * R_sqrt.sqrt 2 * T)
                          - scaled 10 74660340411 (-12)))]>
           (<["𝒢_target" := Fin (scaled 10 74660340411 (-12))]>
           (<["𝒢" := Fin (1 / (exp 1 * PI * R_sqrt.sqrt 2 * T))]>
              (results st))))
          (stdout st)).
Proof.
  intros HT Hne. apply wp_eq.
  unfold BSMVerification.verify_geometric_coupling. cbv zeta.
  xstep. xstep. xsimpl. rewrite (x_sqrt_fin 2) by lra.
  xstep; [nonzero|].
  do 4 xstep. same_run.
Qed.

Lemma verification_geometric_zero st :
  results (H:=numlib X) st !! "T_eq" = Some (Fin 0) →
  BSMVerification.verify_geometric_coupling (H:=numlib X) p st =
    (inl ZeroDivisionError, st).
Proof.
  intros HT. apply wp_eq.
  unfold BSMVerification.verify_geometric_coupling. cbv zeta.
  xstep. xstep. xsimpl. rewrite (x_sqrt_fin 2) by lra.
  eapply wp_lift_inl; [|done].
  xsimpl. rewrite Rmult_0_r. apply x_div_zero.
Qed.

Lemma verification_gravitational_run st g T :
  results (H:=numlib X) st !! "𝒢" = Some (Fin g) →
  results (H:=numlib X) st !! "T_eq" = Some (Fin T) →
  g * T ≠ 0 →
  ∃ G_pred,
    BSMVerification.verify_gravitational_constant (H:=numlib X) p st =
      (inr (Fin G_pred, Fin (- scaled 10 8 (-13))),
       mkSt (<["Ḡ_over_G" := Fin (- scaled 10 8 (-13))]>
             (<["G_CODATA" := Fin (scaled 10 667430 (-16))]>
             (<["G_pred" := Fin G_pred]>
             (<["M_s" :=
                 Fin (scaled 10 1054571817 (-43) / scaled 10 299792458 0
                      * (PI / R_sqrt.sqrt 2) * (1 / (g * T)))]>
                (results st)))))
            (stdout st)).
Proof.
  intros HG HT Hne. eexists. apply wp_eq.
  unfold BSMVerification.verify_gravitational_constant. cbv zeta.
  xstep. xstep. xstep. xsimpl. rewrite (x_sqrt_fin 2) by lra.
  xstep; [nonzero|]. xstep; [nonzero|]. xstep; [done|].
  xstep. xstep; [nonzero|]. xstep. xstep.
  xstep.
  { apply pow_nonzero.
    apply Rmult_integral_contrapositive_currified;
      [apply Rmult_integral_contrapositive_currified; nonzero|].
    unfold Rdiv. rewrite Rmult_1_l. by apply Rinv_neq_0_compat. }
  do 2 xstep. same_run.
Qed.

Lemma calculator_geometric_run st T :
  mp_findroot (NumLib:=numlib X) p
    (BSMCalculator.transcendental_eq p (mp_mpf p 4350917 (-20)))
    (mp_mpf p 10 (-1)) = inr (Fin T) →
  T ≠ 0 →
  BSMCalculator.compute_geometric_factors (H:=numlib X) p st =
    (inr (Fin T, Fin (1 / (exp 1 * PI * R_sqrt.sqrt 2 * T))),
     mkSt (<["epsilon_BSM" := Fin (scaled 10 4350917 (-20))]>
           (<["ğ’¢" := Fin (1 / (exp 1 * PI * R_sqrt.sqrt 2 * T))]>
           (<["T_eq" := Fin T]> (results st))))
          (stdout st)).
Proof.
  intros Hroot Hne. apply wp_eq.
  unfold BSMCalculator.compute_geometric_factors. cbv zeta.
  eapply wp_lift_inr; [exact Hroot|].
  xsimpl. rewrite (x_sqrt_fin 2) by lra.
  xstep; [nonzero|].
  do 2 xstep. same_run.
Qed.

Lemma calculator_geometric_zero st :
  mp_findroot (NumLib:=numlib X) p
    (BSMCalculator.transcendental_eq p (mp_mpf p 4350917 (-20)))
    (mp_mpf p 10 (-1)) = inr (Fin 0) →
  BSMCalculator.compute_geometric_factors (H:=numlib X) p st =
    (inl ZeroDivisionError, st).
Proof.
  intros Hroot. apply wp_eq.
  unfold BSMCalculator.compute_geometric_factors. cbv zeta.
  eapply wp_lift_inr; [exact Hroot|].
  xsimpl. rewrite (x_sqrt_fin 2) by lra.
  eapply wp_lift_inl; [|done].
  xsimpl. rewrite Rmult_0_r. apply x_div_zero.
Qed.

(** A positive real factor moves across another one, whatever it
    multiplies: a real, an infinity or nan. *)
Lemma x_mul_pos_assoc v b d :
  0 < b → 0 < d → x_mul (x_mul v (Fin b)) (Fin d) = x_mul v (Fin (b * d)).
Proof.
  intros Hb Hd. assert (0 < b * d) by (by apply Rmult_lt_0_compat).
  destruct v as [x| | |]; cbn [x_mul]; unfold scale_inf.
  - f_equal. ring.
  - repeat (destruct (Rlt_dec _ _); try lra); cbn [signed_inf x_mul];
      unfold scale_inf; repeat (destruct (Rlt_dec _ _); try lra); done.
  - repeat (destruct (Rlt_dec _ _); try lra); cbn [signed_inf negb x_mul];
      unfold scale_inf; repeat (destruct (Rlt_dec _ _); try lra); done.
  - done.
Qed.

Lemma calculator_gravitational_M_s (c hbar G : float) st g T :
  results (H:=numlib X) st !! "ğ’¢" = Some (Fin g) →
  results (H:=numlib X) st !! "T_eq" = Some (Fin T) →
  g * T ≠ 0 →
  wp (BSMCalculator.compute_gravitational_constant (H:=numlib X) p c hbar G)
     st (λ out st',
       ∀ v, out = inr v →
       ∃ a, float_truediv hbar c = inr a ∧
            results st' !! "M_s"
            = Some (x_mul (x_mul (x_float a) (Fin (PI / R_sqrt.sqrt 2)))
                          (Fin (1 / (g * T))))).
Proof.
  intros HG HT Hne.
  unfold BSMCalculator.compute_gravitational_constant. cbv zeta.
  xstep. xstep. xstep. xsimpl. rewrite (x_sqrt_fin 2) by lra.
  wp_step; [by intros|].
  xstep; [nonzero|].
  eapply wp_lift_inr; [apply x_div_fin; exact Hne|].
  repeat (wp_step; try (intros ? ?; discriminate)).
  intros ? _. eexists. split; [reflexivity|]. st_simpl. by lookup_inserts.
Qed.
End Runs.
End ExactGravity.

Module ExactReport.
Import Exact ExactFacts ExactRuns ExactZdc ExactQcd ExactGravity.
Local Open Scope R_scope.

(** The root for which the coupling is exactly 1. *)
Lemma unit_coupling_root_nonzero : 1 / (exp 1 * PI * R_sqrt.sqrt 2) ≠ 0.
Proof. nonzero. Qed.

Lemma unit_coupling :
  1 / (exp 1 * PI * R_sqrt.sqrt 2 * (1 / (exp 1 * PI * R_sqrt.sqrt 2))) = 1.
Proof.
  pose proof e_gt_2. pose proof PI_RGT_0. pose proof sqrt2_pos.
  field. repeat split; lra.
Qed.

Lemma verification_report_returns p :
  ∃ out st',
    BSMVerification.run_all_verifications
      (H:=numlib (rooted (1 / (exp 1 * PI * R_sqrt.sqrt 2)))) p
      (mkSt ∅ []) = (inr out, st').
Proof.
  set (X := rooted (1 / (exp 1 * PI * R_sqrt.sqrt 2))).
  cut (wp (BSMVerification.run_all_verifications (H:=numlib X) p)
          (mkSt ∅ []) (λ out _, ∃ v, out = inr v ∧ True)).
  { intros Hwp. apply wp_returns in Hwp as (v & st' & Hrun & _).
    by exists v, st'. }
  unfold BSMVerification.run_all_verifications.
  do 5 xstep.
  eapply wp_bind_returns.
  { apply (verification_transcendental_run X p _
             (1 / (exp 1 * PI * R_sqrt.sqrt 2))). reflexivity. }
  cbv beta iota. do 4 xstep.
  eapply wp_bind_returns.
  { apply (verification_geometric_run X p _
             (1 / (exp 1 * PI * R_sqrt.sqrt 2))).
    - st_simpl. by lookup_inserts.
    - apply unit_coupling_root_nonzero. }
  rewrite unit_coupling.
  do 6 xstep.
  eapply wp_bind_returns.
  { apply (verification_zdc_run X p _ 1). st_simpl. by lookup_inserts. }
  cbv beta iota. do 6 xstep.
  eapply wp_lift_inr; [reflexivity|]. xstep. xstep.
  eapply wp_lift_inr.
  { unfold BSMVerification.significant_digits. xsimpl.
    rewrite x_log10_pos; [reflexivity|].
    apply Rdiv_lt_0_compat; [|lra].
    apply Rabs_pos_lt. lra. }
  do 3 xstep.
  eapply wp_bind_returns.
  { apply (verification_qcd_run X p _ (Fin 1)). st_simpl. by lookup_inserts. }
  do 8 xstep.
  match goal with
  | |- wp (_ ≫= _) ?s _ =>
      destruct (verification_gravitational_run X p s
                  1 (1 / (exp 1 * PI * R_sqrt.sqrt 2))) as [G_pred Hgrav]
  end.
  { st_simpl. by lookup_inserts. }
  { st_simpl. by lookup_inserts. }
  { rewrite Rmult_1_l. apply unit_coupling_root_nonzero. }
  eapply wp_bind_returns; [exact Hgrav|].
  cbv beta iota. do 9 xstep. by eexists.
Qed.
End ExactReport.

(** ** The two confinement-scale stages, in exact arithmetic *)

(** C3, as the code has it. Run on caches that hold what each reads, both
    stages return and store the same C_gyro. Each stores as evolved scale
    its own bare scale times its own factor: exp(2 pi / (b0 (1/1.0 -
    1/0.45))) in the verification class, exp(2 pi / (b0 * 2)) in the
    calculator, with b0 = 9. The factors differ, so equal bare scales
    give unequal evolved scales. *)
Theorem qcd_stages_share_C_gyro_not_evolution
    (X : Exact.Externals) (p : Z)
    (stV stC : St (H:=Exact.numlib X)) (g : Exact.xreal) (a : R) :
  results stV !! "𝒢" = Some g →
  results stC !! "Î±_inv_pred" = Some (Exact.Fin a) →
  a ≠ 0%R →
  ∃ outV stV' outC stC' C bV bC,
    BSMVerification.verify_qcd_scale p stV = (inr outV, stV') ∧
    BSMCalculator.compute_qcd_scale p stC = (inr outC, stC') ∧
    results stV' !! "C_gyro" = Some C ∧
    results stC' !! "C_gyro" = Some C ∧
    results stV' !! "Λ_QCD_bare" = Some (Exact.Fin bV) ∧
    results stC' !! "Î›_QCD_bare" = Some (Exact.Fin bC) ∧
    results stV' !! "Λ_QCD_1GeV"
      = Some (Exact.Fin
                (bV * exp (2 * PI / (9 * (1 / 1 - 1 / (45 / 100)))))%R) ∧
    results stC' !! "Î›_QCD_1GeV"
      = Some (Exact.Fin (bC * exp (2 * PI / (9 * 2)))%R) ∧
    (bV = bC →
     results stV' !! "Λ_QCD_1GeV" ≠ results stC' !! "Î›_QCD_1GeV").
Proof.
  intros HG Ha Hne.
  pose proof (ExactQcd.verification_qcd_run X p stV g HG) as HV.
  pose proof (ExactQcd.calculator_qcd_run X p stC a Ha Hne) as HC.
  eexists _, _, _, _, _, _, _.
  split; [exact HV|]. split; [exact HC|]. st_simpl.
  replace (2 * PI / (9 * (1 / 1 - 1 / (45 / 100))))%R
    with (- (2 * PI / 11))%R by field.
  replace (2 * PI / (9 * 2))%R with (PI / 9)%R by field.
  split_and!; lookup_inserts; try reflexivity.
  intros Hb Heq. injection Heq as Heq. rewrite <- Hb in Heq.
  apply ExactQcd.evolution_factors_differ in Heq; [done|].
  apply ExactQcd.Λ_bare_pos. lra.
Qed.

(** ** The substrate mass scale, in exact arithmetic *)

Section RootOfCalculator.
Context `{NumLib}.
Variable p : Z.

(** The root the calculator's first stage returns is the root finder's. *)
Lemma calculator_geometric_root st T g st1 :
  BSMCalculator.compute_geometric_factors p st = (inr (T, g), st1) →
  mp_findroot p (BSMCalculator.transcendental_eq p (mp_mpf p 4350917 (-20)))
              (mp_mpf p 10 (-1)) = inr T.
Proof.
  intros Hrun.
  pose proof (proj1 (wp_run (BSMCalculator.compute_geometric_factors p) st
    (λ out _, ∀ T g, out = inr (T, g) →
       mp_findroot p
         (BSMCalculator.transcendental_eq p (mp_mpf p 4350917 (-20)))
         (mp_mpf p 10 (-1)) = inr T))) as Hwp.
  eapply Hwp; [|exact Hrun|reflexivity].
  unfold BSMCalculator.compute_geometric_factors. cbv zeta.
  repeat (wp_step; try (intros ? ? ?; discriminate)).
  intros ? ? [= <- <-]. reflexivity.
Qed.
End RootOfCalculator.

Module ExactMass.
Import Exact ExactFacts ExactRuns ExactGravity.
Local Open Scope R_scope.

Lemma coupling_times_root T :
  T ≠ 0 → 1 / (exp 1 * PI * R_sqrt.sqrt 2 * T) * T ≠ 0.
Proof.
  intros HT. pose proof e_gt_2. pose proof PI_RGT_0. pose proof sqrt2_pos.
  replace (1 / (exp 1 * PI * R_sqrt.sqrt 2 * T) * T)
    with (/ (exp 1 * PI * R_sqrt.sqrt 2)) by (field; repeat split; lra).
  apply Rinv_neq_0_compat. nonzero.
Qed.

Lemma mass_scale_closed_form k T :
  T ≠ 0 →
  k * (PI / R_sqrt.sqrt 2)
    * (1 / (1 / (exp 1 * PI * R_sqrt.sqrt 2 * T) * T))
  = exp 1 * PI ^ 2 * k.
Proof.
  intros HT. pose proof e_gt_2. pose proof PI_RGT_0. pose proof sqrt2_pos.
  field. repeat split; lra.
Qed.
End ExactMass.

(** C10. In exact arithmetic the substrate mass scale does not depend on
    the root. Whatever real T_eq the geometric stage turned into a
    coupling, the gravitational stage of the verification class returns
    and stores M_s = e pi^2 (hbar / c), for its literals hbar and c; and
    when the calculator's gravitational stage returns, it has stored the
    float quotient hbar / c of its table times e pi^2. *)
Theorem substrate_mass_scale_is_independent_of_the_root
    (X : Exact.Externals) (p : Z) :
  (∀ (st : St (H:=Exact.numlib X)) (T : R) out1 st1,
     results st !! "T_eq" = Some (Exact.Fin T) →
     BSMVerification.verify_geometric_coupling p st = (inr out1, st1) →
     ∃ out2 st2,
       BSMVerification.verify_gravitational_constant p st1 = (inr out2, st2) ∧
       results st2 !! "M_s"
       = Some (Exact.Fin
                 (exp 1 * PI ^ 2
                  * (Exact.scaled 10 1054571817 (-43)
                     / Exact.scaled 10 299792458 0))%R)) ∧
  (∀ (c hbar G : float) (st : St (H:=Exact.numlib X)) (T : R) g st1 out2 st2,
     BSMCalculator.compute_geometric_factors p st
       = (inr (Exact.Fin T, g), st1) →
     BSMCalculator.compute_gravitational_constant p c hbar G st1
       = (inr out2, st2) →
     ∃ a, float_truediv hbar c = inr a ∧
          results st2 !! "M_s"
          = Some (Exact.x_mul (Exact.x_float a)
                              (Exact.Fin (exp 1 * PI ^ 2)%R))).
Proof.
  split.
  - intros st T out1 st1 HT Hgeo.
    destruct (Req_dec_T T 0) as [->|Hne].
    { rewrite (ExactGravity.verification_geometric_zero X p st HT) in Hgeo.
      discriminate. }
    rewrite (ExactGravity.verification_geometric_run X p st T HT Hne) in Hgeo.
    injection Hgeo as <- <-.
    lazymatch goal with
    | |- context [BSMVerification.verify_gravitational_constant p ?s] =>
        destruct (ExactGravity.verification_gravitational_run X p s
                    (1 / (exp 1 * PI * R_sqrt.sqrt 2 * T))%R T)
          as [G_pred Hrun]
    end.
    + st_simpl. by lookup_inserts.
    + st_simpl. by lookup_inserts.
    + by apply ExactMass.coupling_times_root.
    + eexists _, _. split; [exact Hrun|]. st_simpl. lookup_inserts.
      f_equal. f_equal. rewrite ExactMass.mass_scale_closed_form by done.
      reflexivity.
  - intros c hbar G st T g st1 out2 st2 Hgeo Hgrav.
    pose proof (calculator_geometric_root p st _ _ _ Hgeo) as Hroot.
    destruct (Req_dec_T T 0) as [->|Hne].
    { rewrite (ExactGravity.calculator_geometric_zero X p st Hroot) in Hgeo.
      discriminate. }
    rewrite (ExactGravity.calculator_geometric_run X p st T Hroot Hne)
      in Hgeo.
    injection Hgeo as <- <-.
    lazymatch type of Hgrav with
    | _ ?s = _ =>
        pose proof (ExactGravity.calculator_gravitational_M_s X p c hbar G s
                      (1 / (exp 1 * PI * R_sqrt.sqrt 2 * T))%R T) as Hwp
    end.
    rewrite wp_run in Hwp.
    destruct (Hwp ltac:(st_simpl; by lookup_inserts)
                  ltac:(st_simpl; by lookup_inserts)
                  (ExactMass.coupling_times_root T Hne)
                  _ _ Hgrav out2 eq_refl) as (a & Ha & HM).
    exists a. split; [exact Ha|]. rewrite HM. f_equal.
    pose proof PI_RGT_0. pose proof ExactFacts.sqrt2_pos.
    pose proof ExactFacts.e_gt_2.
    rewrite ExactGravity.x_mul_pos_assoc.
    + f_equal. f_equal. field. repeat split; lra.
    + apply Rdiv_lt_0_compat; lra.
    + apply Rdiv_lt_0_compat; [lra|].
      replace (1 / (exp 1 * PI * R_sqrt.sqrt 2 * T) * T)%R
        with (/ (exp 1 * PI * R_sqrt.sqrt 2))%R by (field; repeat split; lra).
      apply Rinv_0_lt_compat.
      apply Rmult_lt_0_compat;
        [apply Rmult_lt_0_compat; [apply exp_pos | apply PI_RGT_0]
        |apply ExactFacts.sqrt2_pos].
Qed.

(** * Beyond the claims: what every run keeps *)

Section Extends.
Context `{NumLib}.

Lemma extends_refl K st : extends K st st.
Proof. repeat split; [done|set_solver|done]. Qed.

Lemma extends_trans K st1 st2 st3 :
  extends K st1 st2 → extends K st2 st3 → extends K st1 st3.
Proof.
  intros (? & ? & ?) (? & ? & ?). repeat split; [set_solver..|].
  by etrans.
Qed.

Lemma extends_mono K K' st st' :
  K ⊆ K' → extends K st st' → extends K' st st'.
Proof. intros ? (? & ? & ?). repeat split; [done|set_solver|done]. Qed.

Lemma extends_print K st0 r o line :
  extends K st0 (mkSt r o) → extends K st0 (mkSt r (o ++ [line])).
Proof.
  intros (? & ? & ?). repeat split; try done. by apply prefix_app_r.
Qed.

Lemma extends_insert K st0 r o k v :
  k ∈ K → extends K st0 (mkSt r o) →
  extends K st0 (mkSt (<[k := v]> r) o).
Proof.
  intros Hk (? & ? & ?). cbn [results stdout] in *.
  repeat split; cbn [results stdout]; try done;
    rewrite dom_insert_L; set_solver.
Qed.

Lemma extends_eta K st0 st :
  extends K st0 st → extends K st0 (mkSt (results st) (stdout st)).
Proof. by destruct st. Qed.

Lemma extends_is_Some K st st' k :
  extends K st st' → is_Some (results st !! k) → is_Some (results st' !! k).
Proof. intros (Hdom & _) Hk. apply elem_of_dom. apply elem_of_dom in Hk. auto. Qed.
End Extends.

(** A fact about literal keys and literal groups, by computation. *)
Ltac ground := compute_done.

(** The end of a run: its state extends the state it started from. *)
Ltac extend :=
  repeat first
    [ assumption
    | apply extends_refl
    | apply extends_print
    | apply extends_insert; [ground|]
    | apply extends_eta ].

Section Whole.
Context `{NumLib}.

Lemma whole_self (group new cache : gset string) :
  group ⊆ new → whole group (new ∪ cache).
Proof. intros ?. right. set_solver. Qed.

Lemma whole_other (group new cache : gset string) :
  group ## new → whole group cache → whole group (new ∪ cache).
Proof. intros ? [?|?]; [left|right]; set_solver. Qed.

Lemma needs_other (a b : string) (new cache : gset string) :
  a ∉ new → (a ∈ cache → b ∈ cache) → a ∈ new ∪ cache → b ∈ new ∪ cache.
Proof. set_solver. Qed.

Lemma needs_new (a b : string) (new cache : gset string) :
  b ∈ new ∪ cache → a ∈ new ∪ cache → b ∈ new ∪ cache.
Proof. auto. Qed.
End Whole.

Section Guard.
Context `{NumLib}.

(** The guard, when the upstream stage keeps [R] and caches the key it is
    asked for whenever it returns. *)
Lemma wp_guard {A} key (stage : M A) st (R : St → Prop)
    (Q : res unit → St → Prop) :
  R st →
  wp stage st (λ out st1,
    R st1 ∧ ∀ a, out = inr a → is_Some (results st1 !! key)) →
  (∀ st1, R st1 → is_Some (results st1 !! key) → Q (inr tt) st1) →
  (∀ e st1, R st1 → Q (inl e) st1) →
  wp (if_not_in key stage) st Q.
Proof.
  intros HR Hstage Hok Herr. apply wp_if_not_in; [auto|].
  intros _. eapply wp_mono; [exact Hstage|].
  intros [e|a] st1 [HR1 Hkey]; eauto.
Qed.

(** A stage specification as the guard of a downstream stage needs it. *)
Lemma stage_spec_upstream {A} closed K K' own key quiet (stage : M A) st :
  stage_spec closed K own quiet stage → K ⊆ K' → key ∈ own →
  wp stage st (λ out st1,
    (extends K' st st1 ∧
     (closed (results st) → closed (results st1)) ∧
     (quiet = true → stdout st1 = stdout st)) ∧
    ∀ a, out = inr a → is_Some (results st1 !! key)).
Proof.
  intros Hspec HK Hkey. eapply wp_mono; [apply Hspec|].
  intros out st1 (Hext & Hcl & Hq & Hk). split_and!; try done.
  - by eapply extends_mono.
  - intros a Ha. apply elem_of_dom. specialize (Hk a Ha). set_solver.
Qed.
End Guard.

(** What is known of the cache, as membership in its set of keys. *)
Ltac keys_known :=
  repeat match goal with
  | H : _ !! _ = Some _ |- _ => apply elem_of_dom_2 in H
  | H : is_Some (_ !! _) |- _ => apply elem_of_dom in H
  | H : _ !! _ = None |- _ => apply not_elem_of_dom in H
  end.

(** A stage that stops with an exception where it stands. *)
Ltac stage_stops :=
  by (split_and!;
      [extend | auto | auto | intros ? ?; discriminate]).

(** The cache after a stage wrote its group [G]: closed if it was. *)
Ltac regroup G :=
  st_simpl; rewrite ?dom_insert_L;
  lazymatch goal with
  | |- context [{[?k]} ∪ ?rest] =>
      lazymatch goal with
      | |- context [dom ?r] =>
          replace ({[k]} ∪ rest) with (G ∪ dom r)
            by (unfold G; set_solver)
      end
  end.

Ltac closes G :=
  let Hc := fresh in
  intros Hc;
  repeat match goal with
  | Hcl : ?c (results _) → ?c (results _) |- _ => apply Hcl in Hc; clear Hcl
  end;
  unfold VerificationKeys.closed, CalculatorKeys.closed in *;
  regroup G; keys_known;
  repeat match type of Hc with _ ∧ _ => destruct Hc as [? Hc] end;
  split_and!;
  first
    [ apply whole_self; ground
    | apply whole_other; [ground|assumption]
    | apply needs_other; [ground|assumption]
    | apply needs_new;
      first [apply elem_of_union_l; ground
            |apply elem_of_union_r; assumption] ].

(** A leaf of a stage that wrote [G], or wrote nothing. *)
Ltac stage_leaf G :=
  split_and!;
  [ extend
  | first [by auto | closes G]
  | first [done | by auto]
  | first [ by (intros ? ?; discriminate)
          | intros ? _; regroup G; apply union_subseteq_l ] ].

Ltac guarded_by closed upstream K st quiet :=
  apply wp_bind;
  eapply (wp_guard _ _ _
            (λ st1, extends K st st1 ∧
                    (closed (results st) → closed (results st1)) ∧
                    (quiet = true → stdout st1 = stdout st)));
  [ split_and!; [apply extends_refl|auto|auto]
  | apply (stage_spec_upstream _ _ _ _ _ _ _ _ upstream); ground
  |
  | intros ? ? (? & ? & ?); stage_stops ].

(** ** The stages of BSMVerification *)

Section VerificationStages.
Context `{NumLib}.
Variable p : Z.
Import VerificationKeys.

Lemma transcendental_spec :
  stage_spec closed transcendental transcendental true
    (BSMVerification.verify_transcendental_equation p).
Proof.
  intros st.
  unfold BSMVerification.verify_transcendental_equation. cbv zeta.
  repeat (wp_step; try stage_stops).
  split_and!; [extend | closes transcendental | done |].
  intros ? _. regroup transcendental. apply union_subseteq_l.
Qed.

Lemma geometric_spec :
  stage_spec closed (transcendental ∪ geometric) geometric true
    (BSMVerification.verify_geometric_coupling p).
Proof.
  intros st. unfold BSMVerification.verify_geometric_coupling. cbv zeta.
  guarded_by closed transcendental_spec (transcendental ∪ geometric) st true.
  intros st1 (Hext & Hcl & Hq) Hkey.
  repeat (wp_step; try stage_stops).
  split_and!; [extend | closes geometric | auto |].
  intros ? _. regroup geometric. apply union_subseteq_l.
Qed.

Lemma zdc_spec :
  stage_spec closed (transcendental ∪ geometric ∪ zdc) zdc true
    (BSMVerification.verify_zdc p).
Proof.
  intros st. unfold BSMVerification.verify_zdc. cbv zeta.
  guarded_by closed geometric_spec (transcendental ∪ geometric ∪ zdc) st true.
  intros st1 (Hext & Hcl & Hq) Hkey.
  repeat (wp_step; try stage_stops).
  split_and!; [extend | closes zdc | auto |].
  intros ? _. regroup zdc. apply union_subseteq_l.
Qed.

Lemma qcd_spec :
  stage_spec closed (transcendental ∪ geometric ∪ qcd) qcd true
    (BSMVerification.verify_qcd_scale p).
Proof.
  intros st. unfold BSMVerification.verify_qcd_scale. cbv zeta.
  guarded_by closed geometric_spec (transcendental ∪ geometric ∪ qcd) st true.
  intros st1 (Hext & Hcl & Hq) Hkey.
  repeat (wp_step; try stage_stops).
  split_and!; [extend | closes qcd | auto |].
  intros ? _. regroup qcd. apply union_subseteq_l.
Qed.

Lemma gravitational_spec :
  stage_spec closed (transcendental ∪ geometric ∪ gravitational) gravitational true
    (BSMVerification.verify_gravitational_constant p).
Proof.
  intros st.
  unfold BSMVerification.verify_gravitational_constant. cbv zeta.
  guarded_by closed geometric_spec (transcendental ∪ geometric ∪ gravitational) st true.
  intros st1 (Hext & Hcl & Hq) Hkey.
  repeat (wp_step; try stage_stops).
  split_and!; [extend | closes gravitational | auto |].
  intros ? _. regroup gravitational. apply union_subseteq_l.
Qed.
End VerificationStages.

(** ** The stages of BSMCalculator *)

Section CalculatorStages.
Context `{NumLib}.
Variable p : Z.
Variables c hbar G : float.
Import CalculatorKeys.

Lemma calculator_geometric_spec :
  stage_spec closed geometric geometric true
    (BSMCalculator.compute_geometric_factors p).
Proof.
  intros st. unfold BSMCalculator.compute_geometric_factors. cbv zeta.
  repeat (wp_step; try stage_leaf geometric).
Qed.

Lemma calculator_zdc_spec :
  stage_spec closed (geometric ∪ zdc) zdc false (BSMCalculator.verify_zdc p).
Proof.
  intros st. unfold BSMCalculator.verify_zdc. cbv zeta.
  guarded_by closed calculator_geometric_spec (geometric ∪ zdc) st true.
  intros st1 (Hext & Hcl & Hq) Hkey.
  repeat (wp_step; try stage_leaf zdc).
Qed.

Lemma calculator_qcd_spec :
  stage_spec closed (geometric ∪ zdc ∪ qcd) qcd false
    (BSMCalculator.compute_qcd_scale p).
Proof.
  intros st. unfold BSMCalculator.compute_qcd_scale. cbv zeta.
  guarded_by closed calculator_zdc_spec (geometric ∪ zdc ∪ qcd) st false.
  intros st1 (Hext & Hcl & Hq) Hkey.
  repeat (wp_step; try stage_leaf qcd).
Qed.

Lemma calculator_gravitational_spec :
  stage_spec closed (geometric ∪ gravitational) gravitational false
    (BSMCalculator.compute_gravitational_constant p c hbar G).
Proof.
  intros st. unfold BSMCalculator.compute_gravitational_constant. cbv zeta.
  guarded_by closed calculator_geometric_spec (geometric ∪ gravitational)
    st true.
  intros st1 (Hext & Hcl & Hq) Hkey.
  repeat (wp_step; try stage_leaf gravitational).
Qed.
End CalculatorStages.

(** ** Computations that keep the cache: built from stages and printing *)

Section Keeps.
Context `{NumLib}.
Variable closed : gmap string mpf → Prop.
Variable K : gset string.

Lemma keeps_bind {A B} (m : M A) (k : A → M B) :
  keeps closed K m → (∀ a, keeps closed K (k a)) → keeps closed K (m ≫= k).
Proof.
  intros Hm Hk st. apply wp_bind. eapply wp_mono; [apply Hm|].
  intros [e|a] st1 [Hext Hcl]; [done|].
  eapply wp_mono; [apply Hk|].
  intros out st2 [Hext2 Hcl2]. split; [by eapply extends_trans|auto].
Qed.

Lemma keeps_ret {A} (x : A) : keeps closed K (mret x).
Proof. intros st. split; [apply extends_refl|auto]. Qed.

Lemma keeps_lift {A} (r : res A) : keeps closed K (lift r).
Proof. intros st. split; [apply extends_refl|auto]. Qed.

Lemma keeps_print line : keeps closed K (print line).
Proof.
  intros st. split; [|auto].
  apply extends_print, extends_eta, extends_refl.
Qed.

Lemma keeps_getitem key : keeps closed K (getitem key).
Proof.
  intros st. apply wp_getitem; intros; (split; [apply extends_refl|auto]).
Qed.

Lemma keeps_get_results : keeps closed K get_results.
Proof. intros st. split; [apply extends_refl|auto]. Qed.

Lemma keeps_stage {A} K' own quiet (stage : M A) :
  stage_spec closed K' own quiet stage → K' ⊆ K → keeps closed K stage.
Proof.
  intros Hspec HK st. eapply wp_mono; [apply Hspec|].
  intros out st' (Hext & Hcl & _). split; [by eapply extends_mono|done].
Qed.
End Keeps.

(** A driver is binds of stages, lookups, conversions and prints. *)
Ltac keeps_all stages :=
  repeat first
    [ stages
    | apply keeps_bind; [|intros ?]
    | apply keeps_ret
    | apply keeps_lift
    | apply keeps_print
    | apply keeps_getitem
    | apply keeps_get_results
    | match goal with |- keeps _ _ (let '(_, _) := ?a in _) => destruct a end ].

Section VerificationDriver.
Context `{NumLib}.
Variable p : Z.
Import VerificationKeys.

Lemma report_keeps :
  keeps closed all (BSMVerification.run_all_verifications p).
Proof.
  unfold BSMVerification.run_all_verifications.
  keeps_all ltac:(first
    [ eapply keeps_stage; [apply transcendental_spec|ground]
    | eapply keeps_stage; [apply geometric_spec|ground]
    | eapply keeps_stage; [apply zdc_spec|ground]
    | eapply keeps_stage; [apply qcd_spec|ground]
    | eapply keeps_stage; [apply gravitational_spec|ground] ]).
Qed.
End VerificationDriver.

Section CalculatorDriver.
Context `{NumLib}.
Variable p : Z.
Variables c hbar G : float.
Import CalculatorKeys.

Lemma analysis_keeps :
  keeps closed all (BSMCalculator.run_complete_analysis p c hbar G).
Proof.
  unfold BSMCalculator.run_complete_analysis.
  keeps_all ltac:(first
    [ eapply keeps_stage; [apply calculator_geometric_spec|ground]
    | eapply keeps_stage; [apply calculator_zdc_spec|ground]
    | eapply keeps_stage; [apply calculator_qcd_spec|ground]
    | eapply keeps_stage; [apply calculator_gravitational_spec|ground] ]).
Qed.

Lemma calculator_invoke_keeps m :
  keeps closed all (CalculatorCalls.invoke c hbar G p m).
Proof.
  destruct m; unfold CalculatorCalls.invoke;
    keeps_all ltac:(first
      [ apply analysis_keeps
      | eapply keeps_stage; [apply calculator_geometric_spec|ground]
      | eapply keeps_stage; [apply calculator_zdc_spec|ground]
      | eapply keeps_stage; [apply calculator_qcd_spec|ground]
      | eapply keeps_stage; [apply calculator_gravitational_spec|ground] ]).
Qed.

Lemma calculator_run_keeps ms st :
  extends all st (CalculatorCalls.run c hbar G p ms st) ∧
  (closed (results st) →
   closed (results (CalculatorCalls.run c hbar G p ms st))).
Proof.
  unfold CalculatorCalls.run. revert st.
  induction ms as [|m ms IH]; intros st; simpl.
  - split; [apply extends_refl|auto].
  - pose proof (calculator_invoke_keeps m st) as [Hext Hcl].
    destruct (IH (CalculatorCalls.invoke c hbar G p m st).2) as [Hext' Hcl'].
    split; [by eapply extends_trans|auto].
Qed.

Lemma calculator_empty_closed : closed (∅ : gmap string mpf).
Proof.
  unfold closed, whole. rewrite dom_empty_L.
  split_and!; first [left; set_solver | set_solver].
Qed.
End CalculatorDriver.

Section VerificationCalls.
Context `{NumLib}.
Variable p : Z.
Import VerificationKeys.

Lemma verification_invoke_keeps m :
  keeps closed all (VerificationCalls.invoke p m).
Proof.
  destruct m; unfold VerificationCalls.invoke;
    keeps_all ltac:(first
      [ apply report_keeps
      | eapply keeps_stage; [apply transcendental_spec|ground]
      | eapply keeps_stage; [apply geometric_spec|ground]
      | eapply keeps_stage; [apply zdc_spec|ground]
      | eapply keeps_stage; [apply qcd_spec|ground]
      | eapply keeps_stage; [apply gravitational_spec|ground] ]).
Qed.

Lemma verification_run_keeps ms st :
  extends all st (VerificationCalls.run p ms st) ∧
  (closed (results st) → closed (results (VerificationCalls.run p ms st))).
Proof.
  unfold VerificationCalls.run. revert st.
  induction ms as [|m ms IH]; intros st; simpl.
  - split; [apply extends_refl|auto].
  - pose proof (verification_invoke_keeps m st) as [Hext Hcl].
    destruct (IH (VerificationCalls.invoke p m st).2) as [Hext' Hcl'].
    split; [by eapply extends_trans|auto].
Qed.

Lemma verification_empty_closed : closed (∅ : gmap string mpf).
Proof.
  unfold closed, whole. rewrite dom_empty_L.
  split_and!; first [left; set_solver | set_solver].
Qed.
End VerificationCalls.

(** X1. Whatever methods of a BSMVerification or BSMCalculator instance
    are called, in whatever order, and whichever of them raise: no key
    leaves the cache, every key that enters it is one of the names the
    stages write (17 for the verification class, 14 for the calculator),
    and the output is only added to. *)
Theorem calls_only_extend_the_instance `{NumLib} (p : Z) (c hbar G : float) :
  (∀ ms st, extends VerificationKeys.all st (VerificationCalls.run p ms st)) ∧
  (∀ ms st,
     extends CalculatorKeys.all st (CalculatorCalls.run c hbar G p ms st)).
Proof.
  split; intros ms st.
  - apply verification_run_keeps.
  - apply calculator_run_keeps.
Qed.

(** X2. On an instance that starts with an empty cache, after any calls
    whatever their outcome, the cache is made of whole stage outputs: of
    the keys a stage writes it holds all or none. And what a stage read
    is there beside what it wrote: the root beside the coupling, the
    coupling beside the comparison, the confinement scales and the
    gravitational entries of the verification class; in the calculator
    the coupling beside the comparison and the gravitational entries, the
    prediction beside the confinement scales. *)
Theorem fresh_cache_is_made_of_whole_stages `{NumLib}
    (p : Z) (c hbar G : float) (out : list string) :
  (∀ ms,
     VerificationKeys.closed
       (results (VerificationCalls.run p ms (mkSt ∅ out)))) ∧
  (∀ ms,
     CalculatorKeys.closed
       (results (CalculatorCalls.run c hbar G p ms (mkSt ∅ out)))).
Proof.
  split; intros ms.
  - apply verification_run_keeps, verification_empty_closed.
  - apply calculator_run_keeps, calculator_empty_closed.
Qed.

(** ** Edges of the stages *)

Section VerificationQuiet.
Context `{NumLib}.
Variable p : Z.

Lemma quiet_stage_output {A} closed K own (stage : M A) st :
  stage_spec closed K own true stage → stdout (stage st).2 = stdout st.
Proof. intros Hspec. by apply (Hspec st). Qed.
End VerificationQuiet.

(** X3. The five stages of BSMVerification print nothing, whether they
    return or raise and whatever upstream stages they trigger: only the
    driver writes to the output. *)
Theorem verification_stages_print_nothing `{NumLib} (p : Z) (st : St) :
  stdout (BSMVerification.verify_transcendental_equation p st).2 = stdout st ∧
  stdout (BSMVerification.verify_geometric_coupling p st).2 = stdout st ∧
  stdout (BSMVerification.verify_zdc p st).2 = stdout st ∧
  stdout (BSMVerification.verify_qcd_scale p st).2 = stdout st ∧
  stdout (BSMVerification.verify_gravitational_constant p st).2 = stdout st.
Proof.
  split_and!.
  - eapply quiet_stage_output, transcendental_spec.
  - eapply quiet_stage_output, geometric_spec.
  - eapply quiet_stage_output, zdc_spec.
  - eapply quiet_stage_output, qcd_spec.
  - eapply quiet_stage_output, gravitational_spec.
Qed.

(** X4. The gravitational stage of either class tests the cache for the
    coupling only and then reads the root as well. On a cache that holds
    the coupling and not T_eq it raises KeyError 'T_eq' and leaves the
    instance as it was. *)
Theorem gravitational_stage_needs_the_root `{NumLib}
    (p : Z) (c hbar G : float) :
  (∀ st,
     is_Some (results st !! "𝒢") → results st !! "T_eq" = None →
     BSMVerification.verify_gravitational_constant p st
       = (inl (KeyError "T_eq"), st)) ∧
  (∀ st,
     is_Some (results st !! "ğ’¢") → results st !! "T_eq" = None →
     BSMCalculator.compute_gravitational_constant p c hbar G st
       = (inl (KeyError "T_eq"), st)).
Proof.
  split; intros st [g Hg] HT; apply wp_eq.
  - unfold BSMVerification.verify_gravitational_constant. cbv zeta.
    eapply wp_cached; [by rewrite Hg|].
    eapply wp_getitem_some; [exact Hg|].
    apply wp_bind, wp_getitem; [congruence|done].
  - unfold BSMCalculator.compute_gravitational_constant. cbv zeta.
    eapply wp_cached; [by rewrite Hg|].
    eapply wp_getitem_some; [exact Hg|].
    apply wp_bind, wp_getitem; [congruence|done].
Qed.

Section Atomicity.
Context `{NumLib}.
Variable p : Z.

Lemma wp_unchanged_on_failure {A} (m : M A) st :
  wp m st (λ out st', ∀ e, out = inl e → st' = st) →
  ∀ e st', m st = (inl e, st') → st' = st.
Proof. rewrite wp_run. intros Hwp e st' Hrun. by eapply Hwp. Qed.

Lemma transcendental_atomic st e st' :
  BSMVerification.verify_transcendental_equation p st = (inl e, st') →
  st' = st.
Proof.
  apply wp_unchanged_on_failure.
  unfold BSMVerification.verify_transcendental_equation. cbv zeta.
  repeat (wp_step; try done).
Qed.

Lemma geometric_atomic st e st' :
  is_Some (results st !! "T_eq") →
  BSMVerification.verify_geometric_coupling p st = (inl e, st') → st' = st.
Proof.
  intros HT. apply wp_unchanged_on_failure.
  unfold BSMVerification.verify_geometric_coupling. cbv zeta.
  eapply wp_cached; [done|].
  repeat (wp_step; try done).
Qed.

Lemma gravitational_atomic st e st' :
  is_Some (results st !! "𝒢") →
  BSMVerification.verify_gravitational_constant p st = (inl e, st') →
  st' = st.
Proof.
  intros HG. apply wp_unchanged_on_failure.
  unfold BSMVerification.verify_gravitational_constant. cbv zeta.
  eapply wp_cached; [done|].
  repeat (wp_step; try done).
Qed.

Lemma calculator_zdc_writes_first st G rel :
  results st !! "ğ’¢" = Some G →
  mp_div p (mp_abs p (mp_sub p (mp_mul p (mp_mpf p 183615267343 (-8)) G)
                                (mp_mpf p 137035999084 (-9))))
           (mp_mpf p 137035999084 (-9)) = inr rel →
  wp (BSMCalculator.verify_zdc p) st (λ _ st',
    results st' =
      <["zdc_rel_error" := rel]>
      (<["zdc_error" :=
          mp_abs p (mp_sub p (mp_mul p (mp_mpf p 183615267343 (-8)) G)
                             (mp_mpf p 137035999084 (-9)))]>
      (<["Î±_inv_CODATA" := mp_mpf p 137035999084 (-9)]>
      (<["Î±_inv_pred" := mp_mul p (mp_mpf p 183615267343 (-8)) G]>
      (<["Î¼" := mp_mpf p 183615267343 (-8)]> (results st)))))).
Proof.
  intros HG Hrel. unfold BSMCalculator.verify_zdc. cbv zeta.
  eapply wp_cached; [by rewrite HG|].
  eapply wp_getitem_some; [exact HG|].
  eapply wp_lift_inr; [exact Hrel|].
  repeat (wp_step; try done).
Qed.
End Atomicity.

(** X5. A stage of BSMVerification that can fail on its own arithmetic
    (the solver, the coupling 1/(e pi sqrt2 T_eq), the mass scale
    1/(G T_eq)) writes only after all of it: when it raises, with what it
    tests for already cached, the instance is exactly as it was. *)
Theorem verification_failure_is_atomic `{NumLib} (p : Z) :
  (∀ st e st',
     BSMVerification.verify_transcendental_equation p st = (inl e, st') →
     st' = st) ∧
  (∀ st e st',
     is_Some (results st !! "T_eq") →
     BSMVerification.verify_geometric_coupling p st = (inl e, st') →
     st' = st) ∧
  (∀ st e st',
     is_Some (results st !! "𝒢") →
     BSMVerification.verify_gravitational_constant p st = (inl e, st') →
     st' = st).
Proof.
  split_and!; intros.
  - by eapply transcendental_atomic.
  - by eapply geometric_atomic.
  - by eapply gravitational_atomic.
Qed.

(** X6. The comparison stage of BSMCalculator writes before it prints.
    With the coupling cached and the relative error computed, the cache
    afterwards holds the five comparison entries whatever the outcome:
    also when formatting a value or counting the digits then raises. *)
Theorem calculator_zdc_writes_before_it_prints `{NumLib} (p : Z) :
  ∀ st G rel out st',
    results st !! "ğ’¢" = Some G →
    mp_div p (mp_abs p (mp_sub p (mp_mul p (mp_mpf p 183615267343 (-8)) G)
                                  (mp_mpf p 137035999084 (-9))))
             (mp_mpf p 137035999084 (-9)) = inr rel →
    BSMCalculator.verify_zdc p st = (out, st') →
    results st' =
      <["zdc_rel_error" := rel]>
      (<["zdc_error" :=
          mp_abs p (mp_sub p (mp_mul p (mp_mpf p 183615267343 (-8)) G)
                             (mp_mpf p 137035999084 (-9)))]>
      (<["Î±_inv_CODATA" := mp_mpf p 137035999084 (-9)]>
      (<["Î±_inv_pred" := mp_mul p (mp_mpf p 183615267343 (-8)) G]>
      (<["Î¼" := mp_mpf p 183615267343 (-8)]> (results st))))).
Proof.
  intros st G rel out st' HG Hrel Hrun.
  pose proof (calculator_zdc_writes_first p st G rel HG Hrel) as Hwp.
  rewrite wp_run in Hwp. by eapply Hwp.
Qed.

Module ExactEdges.
Import Exact ExactFacts ExactRuns ExactZdc ExactGravity.
Local Open Scope R_scope.

Section Runs.
Variable X : Externals.
Variable p : Z.

Lemma verification_gravitational_zero st g T :
  results (H:=numlib X) st !! "𝒢" = Some (Fin g) →
  results (H:=numlib X) st !! "T_eq" = Some (Fin T) →
  g * T = 0 →
  BSMVerification.verify_gravitational_constant (H:=numlib X) p st =
    (inl ZeroDivisionError, st).
Proof.
  intros HG HT Hz. apply wp_eq.
  unfold BSMVerification.verify_gravitational_constant. cbv zeta.
  xstep. xstep. xstep. xsimpl. rewrite (x_sqrt_fin 2) by lra.
  xstep; [nonzero|]. xstep; [nonzero|].
  eapply wp_lift_inl; [|done].
  xsimpl. rewrite Hz. apply x_div_zero.
Qed.
End Runs.

(** The coupling at which the prediction is the reference value. *)
Definition matching_coupling : R := 137035999084 / 1836152673430.

Lemma matching_coupling_matches :
  183615267343 / 100000000 * matching_coupling = 137035999084 / 1000000000.
Proof. unfold matching_coupling. lra. Qed.

Lemma calculator_zdc_raises_at_zero p (st : St (H:=numlib stalled)) g :
  results st !! "ğ’¢" = Some (Fin g) →
  183615267343 / 100000000 * g = 137035999084 / 1000000000 →
  ∃ st',
    BSMCalculator.verify_zdc (H:=numlib stalled) p st
      = (inl (ValueError "cannot convert inf or nan to int"), st') ∧
    stdout st' ≠ stdout st.
Proof.
  intros HG Hz. apply wp_raises.
  unfold BSMCalculator.verify_zdc. cbv zeta.
  xstep. xstep. xstep.
  { norm_scaled. lra. }
  do 8 xstep.
  eapply wp_lift_inr; [reflexivity|]. xstep.
  eapply wp_lift_inr; [reflexivity|]. xstep.
  eapply wp_lift_inl.
  { unfold BSMCalculator.significant_digits. xsimpl.
    norm_scaled. rewrite Hz.
    replace (137035999084 / 1000000000 + - (137035999084 / 1000000000))
      with 0 by lra.
    rewrite Rabs_R0.
    replace (0 / (137035999084 / 1000000000)) with 0 by lra.
    rewrite x_log10_zero. reflexivity. }
  split; [done|]. st_simpl.
  intros Heq. apply (f_equal length) in Heq.
  rewrite !length_app in Heq. cbn in Heq. lia.
Qed.
End ExactEdges.

(** ** The guard of a stage *)

Section Defers.
Context `{NumLib}.

(** A guarded stage whose key is missing is the upstream stage followed
    by the guarded stage again, as soon as the upstream stage caches the
    key whenever it returns. *)
Lemma guard_defers {A B} key (stage : M A) (k : unit → M B) st :
  results st !! key = None →
  (∀ a st1, stage st = (inr a, st1) → is_Some (results st1 !! key)) →
  (if_not_in key stage ≫= k) st
    = (stage ≫= λ _, if_not_in key stage ≫= k) st.
Proof.
  intros Hk Hown. unfold if_not_in, contains, mbind, M_bind, mret, M_ret.
  rewrite bool_decide_eq_false_2 by (rewrite Hk; apply is_Some_None).
  destruct (stage st) as [[e|a] st1] eqn:E; [done|].
  rewrite bool_decide_eq_true_2 by eauto. done.
Qed.

Lemma stage_spec_caches {A} closed K own quiet (stage : M A) key st a st1 :
  stage_spec closed K own quiet stage → key ∈ own →
  stage st = (inr a, st1) → is_Some (results st1 !! key).
Proof.
  intros Hspec Hkey Hrun. specialize (Hspec st). rewrite wp_run in Hspec.
  destruct (Hspec _ _ Hrun) as (_ & _ & _ & Hown).
  apply elem_of_dom. specialize (Hown a eq_refl). set_solver.
Qed.
End Defers.

Ltac defers upstream :=
  intros ?; cbv zeta;
  apply guard_defers; [assumption|];
  intros ? ?; eapply stage_spec_caches; [apply upstream|ground].

Section StageDefers.
Context `{NumLib}.
Variable p : Z.
Variables c hbar G : float.

Lemma geometric_defers st :
  results st !! "T_eq" = None →
  BSMVerification.verify_geometric_coupling p st
    = (BSMVerification.verify_transcendental_equation p
       ≫= λ _, BSMVerification.verify_geometric_coupling p) st.
Proof.
  unfold BSMVerification.verify_geometric_coupling.
  defers (transcendental_spec p).
Qed.

Lemma zdc_defers st :
  results st !! "𝒢" = None →
  BSMVerification.verify_zdc p st
    = (BSMVerification.verify_geometric_coupling p
       ≫= λ _, BSMVerification.verify_zdc p) st.
Proof. unfold BSMVerification.verify_zdc. defers (geometric_spec p). Qed.

Lemma qcd_defers st :
  results st !! "𝒢" = None →
  BSMVerification.verify_qcd_scale p st
    = (BSMVerification.verify_geometric_coupling p
       ≫= λ _, BSMVerification.verify_qcd_scale p) st.
Proof.
  unfold BSMVerification.verify_qcd_scale. defers (geometric_spec p).
Qed.

Lemma gravitational_defers st :
  results st !! "𝒢" = None →
  BSMVerification.verify_gravitational_constant p st
    = (BSMVerification.verify_geometric_coupling p
       ≫= λ _, BSMVerification.verify_gravitational_constant p) st.
Proof.
  unfold BSMVerification.verify_gravitational_constant.
  defers (geometric_spec p).
Qed.

Lemma calculator_zdc_defers st :
  results st !! "ğ’¢" = None →
  BSMCalculator.verify_zdc p st
    = (BSMCalculator.compute_geometric_factors p
       ≫= λ _, BSMCalculator.verify_zdc p) st.
Proof.
  unfold BSMCalculator.verify_zdc. defers (calculator_geometric_spec p).
Qed.

Lemma calculator_qcd_defers st :
  results st !! "Î±_inv_pred" = None →
  BSMCalculator.compute_qcd_scale p st
    = (BSMCalculator.verify_zdc p
       ≫= λ _, BSMCalculator.compute_qcd_scale p) st.
Proof.
  unfold BSMCalculator.compute_qcd_scale. defers (calculator_zdc_spec p).
Qed.

Lemma calculator_gravitational_defers st :
  results st !! "ğ’¢" = None →
  BSMCalculator.compute_gravitational_constant p c hbar G st
    = (BSMCalculator.compute_geometric_factors p
       ≫= λ _, BSMCalculator.compute_gravitational_constant p c hbar G) st.
Proof.
  unfold BSMCalculator.compute_gravitational_constant.
  defers (calculator_geometric_spec p).
Qed.
End StageDefers.

(** X7. A stage called while the key it tests for is missing is the
    upstream stage followed by the same stage: if the upstream stage
    raises, so does the call, with the same exception and instance; if it
    returns, it has cached the key, and the stage goes on as if called on
    the instance the upstream stage left. *)
Theorem missing_key_runs_the_upstream_stage_first `{NumLib}
    (p : Z) (c hbar G : float) (st : St) :
  (results st !! "T_eq" = None →
   BSMVerification.verify_geometric_coupling p st
     = (BSMVerification.verify_transcendental_equation p
        ≫= λ _, BSMVerification.verify_geometric_coupling p) st) ∧
  (results st !! "𝒢" = None →
   BSMVerification.verify_zdc p st
     = (BSMVerification.verify_geometric_coupling p
        ≫= λ _, BSMVerification.verify_zdc p) st ∧
   BSMVerification.verify_qcd_scale p st
     = (BSMVerification.verify_geometric_coupling p
        ≫= λ _, BSMVerification.verify_qcd_scale p) st ∧
   BSMVerification.verify_gravitational_constant p st
     = (BSMVerification.verify_geometric_coupling p
        ≫= λ _, BSMVerification.verify_gravitational_constant p) st) ∧
  (results st !! "ğ’¢" = None →
   BSMCalculator.verify_zdc p st
     = (BSMCalculator.compute_geometric_factors p
        ≫= λ _, BSMCalculator.verify_zdc p) st ∧
   BSMCalculator.compute_gravitational_constant p c hbar G st
     = (BSMCalculator.compute_geometric_factors p
        ≫= λ _, BSMCalculator.compute_gravitational_constant p c hbar G) st) ∧
  (results st !! "Î±_inv_pred" = None →
   BSMCalculator.compute_qcd_scale p st
     = (BSMCalculator.verify_zdc p
        ≫= λ _, BSMCalculator.compute_qcd_scale p) st).
Proof.
  split_and!; intros Hk; split_and?.
  - by apply geometric_defers.
  - by apply zdc_defers.
  - by apply qcd_defers.
  - by apply gravitational_defers.
  - by apply calculator_zdc_defers.
  - by apply calculator_gravitational_defers.
  - by apply calculator_qcd_defers.
Qed.

(** ** What a method call leaves in the cache *)

Section Gains.
Context `{NumLib}.
Variable closed : gmap string mpf → Prop.
Variable K : gset string.

Lemma stage_spec_widen {A} K' own quiet (stage : M A) :
  stage_spec closed K' own quiet stage → K' ⊆ K →
  stage_spec closed K own false stage.
Proof.
  intros Hspec HK st. eapply wp_mono; [apply Hspec|].
  intros out st' (Hext & Hcl & _ & Hown).
  split_and!; [by eapply extends_mono|done|done|done].
Qed.

Lemma stage_spec_keeps {A} (m : M A) :
  keeps closed K m → stage_spec closed K ∅ false m.
Proof.
  intros Hm st. eapply wp_mono; [apply Hm|].
  intros out st' [Hext Hcl]. split_and!; [done|done|done|].
  intros _ _. apply empty_subseteq.
Qed.

Lemma stage_spec_bind {A B} own1 own2 (m : M A) (k : A → M B) :
  stage_spec closed K own1 false m →
  (∀ a, stage_spec closed K own2 false (k a)) →
  stage_spec closed K (own1 ∪ own2) false (m ≫= k).
Proof.
  intros Hm Hk st. apply wp_bind. eapply wp_mono; [apply Hm|].
  intros [e|a] st1 (Hext & Hcl & _ & Hown).
  { split_and!; [done|done|done|]. intros ? ?; discriminate. }
  eapply wp_mono; [apply Hk|].
  intros out st2 (Hext2 & Hcl2 & _ & Hown2).
  split_and!; [by eapply extends_trans|auto|done|].
  intros b Hb. destruct Hext2 as (Hsub & _).
  specialize (Hown a eq_refl). specialize (Hown2 b Hb). set_solver.
Qed.

Lemma stage_spec_own {A} own own' quiet (stage : M A) :
  stage_spec closed K own quiet stage → own' ⊆ own →
  stage_spec closed K own' quiet stage.
Proof.
  intros Hspec Hsub st. eapply wp_mono; [apply Hspec|].
  intros out st' (Hext & Hcl & Hq & Hown).
  split_and!; [done|done|done|]. intros a Ha. specialize (Hown a Ha).
  set_solver.
Qed.

Lemma whole_has (group cache : gset string) a :
  a ∈ group → a ∈ cache → whole group cache → group ⊆ cache.
Proof. intros ? ? [?|?]; set_solver. Qed.

Lemma returns_cache_bind {A} (m : M A) (k : A → M (gmap string mpf)) :
  (∀ a, returns_cache (k a)) → returns_cache (m ≫= k).
Proof.
  intros Hk st. apply wp_bind. unfold wp at 1.
  destruct (m st) as [[e|a] st1]; cbn [fst snd].
  - intros ? ?; discriminate.
  - apply Hk.
Qed.

Lemma returns_cache_get_results : returns_cache get_results.
Proof. intros st v. by intros [= <-]. Qed.
End Gains.

(** A method is binds of stages, lookups, conversions and prints; what
    it has cached when it returns is what its stages have. *)
Ltac gains_all stages :=
  repeat first
    [ stages
    | apply stage_spec_bind; [|intros ?]
    | apply stage_spec_keeps;
      first [ apply keeps_ret | apply keeps_lift | apply keeps_print
            | apply keeps_getitem | apply keeps_get_results ]
    | match goal with
      | |- stage_spec _ _ _ _ (let '(_, _) := ?a in _) => destruct a
      end ].

Ltac returns_the_cache :=
  repeat first
    [ apply returns_cache_get_results
    | apply returns_cache_bind; intros ?
    | match goal with
      | |- returns_cache (let '(_, _) := ?a in _) => destruct a
      end ].

Section VerificationGains.
Context `{NumLib}.
Variable p : Z.
Import VerificationKeys.

Ltac stages :=
  first
    [ eapply stage_spec_widen; [apply transcendental_spec|ground]
    | eapply stage_spec_widen; [apply geometric_spec|ground]
    | eapply stage_spec_widen; [apply zdc_spec|ground]
    | eapply stage_spec_widen; [apply qcd_spec|ground]
    | eapply stage_spec_widen; [apply gravitational_spec|ground] ].

Lemma report_spec :
  stage_spec closed all all false (BSMVerification.run_all_verifications p).
Proof.
  eapply stage_spec_own.
  - unfold BSMVerification.run_all_verifications. gains_all stages.
  - ground.
Qed.

Lemma report_returns_cache :
  returns_cache (BSMVerification.run_all_verifications p).
Proof.
  unfold BSMVerification.run_all_verifications. returns_the_cache.
Qed.

Lemma verification_invoke_spec m :
  stage_spec closed (verification_chain m) (verification_own m) false
    (VerificationCalls.invoke p m).
Proof.
  destruct m; unfold VerificationCalls.invoke;
    (eapply stage_spec_own;
     [ gains_all ltac:(first
         [ eapply stage_spec_widen; [apply report_spec|ground] | stages ])
     | ground ]).
Qed.

Lemma verification_chain_cached m r :
  closed r → verification_own m ⊆ dom r → verification_chain m ⊆ dom r.
Proof.
  intros (wT & wG & wZ & wQ & wGr & HG & Hα & HC & HM) Hown.
  assert ("𝒢" ∈ dom r → transcendental ∪ geometric ⊆ dom r) as Hup.
  { intros Hk. apply union_least.
    - eapply whole_has; [|apply HG, Hk|done]. ground.
    - eapply whole_has; [|apply Hk|done]. ground. }
  destruct m; cbn [verification_own verification_chain] in *;
    try done.
  - apply union_least; [|done].
    eapply whole_has; [|apply HG, Hown|done]; ground.
  - apply union_least; [|done]. apply Hup, Hα, Hown. ground.
  - apply union_least; [|done]. apply Hup, HC, Hown. ground.
  - apply union_least; [|done]. apply Hup, HM, Hown. ground.
Qed.
End VerificationGains.

Section CalculatorGains.
Context `{NumLib}.
Variable p : Z.
Variables c hbar G : float.
Import CalculatorKeys.

Ltac stages :=
  first
    [ eapply stage_spec_widen; [apply calculator_geometric_spec|ground]
    | eapply stage_spec_widen; [apply calculator_zdc_spec|ground]
    | eapply stage_spec_widen; [apply calculator_qcd_spec|ground]
    | eapply stage_spec_widen; [apply calculator_gravitational_spec|ground] ].

Lemma analysis_spec :
  stage_spec closed all all false
    (BSMCalculator.run_complete_analysis p c hbar G).
Proof.
  eapply stage_spec_own.
  - unfold BSMCalculator.run_complete_analysis. gains_all stages.
  - ground.
Qed.

Lemma analysis_returns_cache :
  returns_cache (BSMCalculator.run_complete_analysis p c hbar G).
Proof.
  unfold BSMCalculator.run_complete_analysis. returns_the_cache.
Qed.

Lemma calculator_invoke_spec m :
  stage_spec closed (calculator_chain m) (calculator_own m) false
    (CalculatorCalls.invoke c hbar G p m).
Proof.
  destruct m; unfold CalculatorCalls.invoke;
    (eapply stage_spec_own;
     [ gains_all ltac:(first
         [ eapply stage_spec_widen; [apply analysis_spec|ground] | stages ])
     | ground ]).
Qed.

Lemma calculator_chain_cached m r :
  closed r → calculator_own m ⊆ dom r → calculator_chain m ⊆ dom r.
Proof.
  intros (wG & wZ & wQ & wGr & Hα & HC & HM) Hown.
  assert ("ğ’¢" ∈ dom r → geometric ⊆ dom r) as Hup.
  { intros Hk. eapply whole_has; [|apply Hk|done]. ground. }
  assert ("Î±_inv_pred" ∈ dom r → geometric ∪ zdc ⊆ dom r) as Hup2.
  { intros Hk. apply union_least; [by apply Hup, Hα|].
    eapply whole_has; [|apply Hk|done]. ground. }
  destruct m; cbn [calculator_own calculator_chain] in *; try done.
  - apply union_least; [|done]. apply Hup, Hα, Hown. ground.
  - apply union_least; [|done]. apply Hup2, HC, Hown. ground.
  - apply union_least; [|done]. apply Hup, HM, Hown. ground.
Qed.
End CalculatorGains.

(** X8. A method that returns on a new instance leaves exactly the keys
    of its chain in the cache: its own and those of the stages it calls
    upstream, and no others. The comparison of the verification class
    leaves 10 keys, that of the calculator 8; the confinement scale of
    the calculator, which runs the comparison first, 11; either driver
    all of them. *)
Theorem new_instance_holds_the_chain_of_a_call `{NumLib}
    (p : Z) (c hbar G : float) (lines : list string) :
  (∀ m out st',
     VerificationCalls.invoke p m (mkSt ∅ lines) = (inr out, st') →
     dom (results st') = verification_chain m) ∧
  (∀ m out st',
     CalculatorCalls.invoke c hbar G p m (mkSt ∅ lines) = (inr out, st') →
     dom (results st') = calculator_chain m).
Proof.
  split; intros m out st' Hrun.
  - pose proof (verification_invoke_spec p m (mkSt ∅ lines)) as Hspec.
    rewrite wp_run in Hspec.
    destruct (Hspec _ _ Hrun) as ((_ & Hsub & _) & Hcl & _ & Hown).
    cbn [results] in Hsub, Hcl. rewrite dom_empty_L in Hsub.
    apply set_eq_subseteq. split; [set_solver|].
    apply verification_chain_cached; [|by eapply Hown].
    apply Hcl, verification_empty_closed.
  - pose proof (calculator_invoke_spec p c hbar G m (mkSt ∅ lines)) as Hspec.
    rewrite wp_run in Hspec.
    destruct (Hspec _ _ Hrun) as ((_ & Hsub & _) & Hcl & _ & Hown).
    cbn [results] in Hsub, Hcl. rewrite dom_empty_L in Hsub.
    apply set_eq_subseteq. split; [set_solver|].
    apply calculator_chain_cached; [|by eapply Hown].
    apply Hcl, calculator_empty_closed.
Qed.

(** X9. Either driver, when it returns, returns the cache of the
    instance itself, and the cache then holds every key the stages
    write, whatever it held before the call. *)
Theorem drivers_return_the_complete_cache `{NumLib}
    (p : Z) (c hbar G : float) :
  (∀ st out st',
     BSMVerification.run_all_verifications p st = (inr out, st') →
     out = results st' ∧ VerificationKeys.all ⊆ dom out) ∧
  (∀ st out st',
     BSMCalculator.run_complete_analysis p c hbar G st = (inr out, st') →
     out = results st' ∧ CalculatorKeys.all ⊆ dom out).
Proof.
  split; intros st out st' Hrun.
  - pose proof (report_returns_cache p st) as Hret.
    pose proof (report_spec p st) as Hspec.
    rewrite wp_run in Hret. rewrite wp_run in Hspec.
    specialize (Hret _ _ Hrun out eq_refl). subst out.
    split; [done|]. by eapply (Hspec _ _ Hrun).
  - pose proof (analysis_returns_cache p c hbar G st) as Hret.
    pose proof (analysis_spec p c hbar G st) as Hspec.
    rewrite wp_run in Hret. rewrite wp_run in Hspec.
    specialize (Hret _ _ Hrun out eq_refl). subst out.
    split; [done|]. by eapply (Hspec _ _ Hrun).
Qed.

(** ** The two classes side by side *)

Section Agreement.
Context `{NumLib}.
Variable p : Z.

Lemma verification_geometric_from_the_solver st :
  results st !! "T_eq" = None →
  wp (BSMVerification.verify_geometric_coupling p) st (λ out st',
    ∀ g, out = inr g →
    ∃ T,
      mp_findroot p (BSMVerification.f p (mp_mpf p 4350917 (-20)))
        (mp_mpf p 10 (-1)) = inr T ∧
      coupling_of p T = inr g ∧
      results st' !! "T_eq" = Some T ∧
      results st' !! "𝒢" = Some g ∧
      results st' !! "epsilon_BSM" = Some (mp_mpf p 4350917 (-20))).
Proof.
  intros HT. unfold BSMVerification.verify_geometric_coupling. cbv zeta.
  apply wp_bind, wp_if_not_in; [intros [? ?]; congruence|]. intros _.
  unfold BSMVerification.verify_transcendental_equation. cbv zeta.
  repeat (wp_step; try (intros ? ?; discriminate)).
  match goal with
  | Hl : _ !! "T_eq" = Some _ |- _ =>
      rewrite lookup_insert_ne in Hl by done;
      rewrite lookup_insert_eq in Hl; injection Hl as <-
  end.
  intros g [= <-]. eexists. split_and!;
    [first [eassumption|reflexivity]|first [eassumption|reflexivity]|..];
    st_simpl; by lookup_inserts.
Qed.

Lemma calculator_geometric_from_the_solver st :
  wp (BSMCalculator.compute_geometric_factors p) st (λ out st',
    ∀ T g, out = inr (T, g) →
      mp_findroot p
        (BSMCalculator.transcendental_eq p (mp_mpf p 4350917 (-20)))
        (mp_mpf p 10 (-1)) = inr T ∧
      coupling_of p T = inr g ∧
      results st' !! "T_eq" = Some T ∧
      results st' !! "ğ’¢" = Some g ∧
      results st' !! "epsilon_BSM" = Some (mp_mpf p 4350917 (-20))).
Proof.
  unfold BSMCalculator.compute_geometric_factors. cbv zeta.
  repeat (wp_step; try (intros ? ? ?; discriminate)).
  intros T g [= <- <-]. split_and!;
    [first [eassumption|reflexivity]|first [eassumption|reflexivity]|..];
    st_simpl; by lookup_inserts.
Qed.
End Agreement.

(** X10. The two classes solve the same equation from the same starting
    point and turn the root into the coupling by the same expression.
    When the geometric stage of BSMVerification returns on an instance
    without a cached root, and the first stage of BSMCalculator returns,
    under one precision, both instances hold the same root, the same
    coupling (under their different key names) and the same quantum
    correction. *)
Theorem classes_agree_on_root_and_coupling `{NumLib} (p : Z) :
  ∀ stV stC gV stV' T g stC',
    results stV !! "T_eq" = None →
    BSMVerification.verify_geometric_coupling p stV = (inr gV, stV') →
    BSMCalculator.compute_geometric_factors p stC = (inr (T, g), stC') →
    gV = g ∧
    results stV' !! "T_eq" = Some T ∧ results stC' !! "T_eq" = Some T ∧
    results stV' !! "𝒢" = Some g ∧ results stC' !! "ğ’¢" = Some g ∧
    results stV' !! "epsilon_BSM" = results stC' !! "epsilon_BSM".
Proof.
  intros stV stC gV stV' T g stC' HT HV HC.
  pose proof (verification_geometric_from_the_solver p stV HT) as HwV.
  pose proof (calculator_geometric_from_the_solver p stC) as HwC.
  rewrite wp_run in HwV. rewrite wp_run in HwC.
  destruct (HwV _ _ HV gV eq_refl) as (T' & HrV & HgV & HTV & HGV & HeV).
  destruct (HwC _ _ HC T g eq_refl) as (HrC & HgC & HTC & HGC & HeC).
  assert (T' = T) as ->.
  { change (BSMCalculator.transcendental_eq p) with (BSMVerification.f p)
      in HrC. congruence. }
  assert (gV = g) as -> by congruence.
  split_and!; try done. congruence.
Qed.

(** ** Calling a stage again *)

Section Again.
Context `{NumLib}.

Lemma wp_uncached {A B} key (stage : M A) (k : unit → M B) st
    (Q : res B → St → Prop) :
  results st !! key = None →
  wp stage st (λ out st1,
    match out with
    | inl e => Q (inl e) st1
    | inr _ => wp (k tt) st1 Q
    end) →
  wp (if_not_in key stage ≫= k) st Q.
Proof.
  intros Hk Hstage. apply wp_bind, wp_if_not_in.
  - intros [? ?]; congruence.
  - intros _. eapply wp_mono; [exact Hstage|]. by intros [e|a] st1.
Qed.

Lemma wp_getitem_none {B} key (k : mpf → M B) st (Q : res B → St → Prop) :
  results st !! key = None → Q (inl (KeyError key)) st →
  wp (getitem key ≫= k) st Q.
Proof.
  intros Hk HQ. apply wp_bind, wp_getitem; [congruence|done].
Qed.

Lemma wp_again {A} (m : M A) st :
  (∀ again, again = m → wp m st (λ out st', again st' = (out, st'))) →
  m (m st).2 = m st.
Proof.
  intros Hwp. specialize (Hwp m eq_refl). unfold wp in Hwp.
  rewrite Hwp. by destruct (m st).
Qed.

End Again.

Ltac unfold_stages :=
  progress
    (unfold BSMVerification.verify_transcendental_equation,
            BSMVerification.verify_geometric_coupling,
            BSMVerification.verify_zdc,
            BSMVerification.verify_qcd_scale,
            BSMVerification.verify_gravitational_constant,
            BSMCalculator.compute_geometric_factors,
            BSMCalculator.verify_zdc,
            BSMCalculator.compute_qcd_scale,
            BSMCalculator.compute_gravitational_constant;
     cbv zeta).

(** Every path of a stage, with what each step returned on it. *)
Ltac explore :=
  repeat first
    [ progress cbv beta iota
    | apply wp_bind, wp_if_not_in; [intros [? ?]|intros ?]
    | wp_step
    | unfold_stages ].

(** What is known of the lookups and of the steps, without doubles. *)
Ltac known :=
  repeat match goal with
  | H : context [<[_ := _]> _ !! _] |- _ =>
      progress (rewrite ?lookup_insert_eq in H;
                rewrite ?lookup_insert_ne in H by done)
  end;
  simplify_eq;
  repeat match goal with
  | H1 : ?r = inr ?a, H2 : ?r = inr ?b |- _ =>
      assert (a = b) by congruence; subst b; clear H2
  | H1 : ?r = Some ?a, H2 : ?r = Some ?b |- _ =>
      assert (a = b) by congruence; subst b; clear H2
  end.

(** The same path again, from the state it ended in. *)
Ltac rerun :=
  repeat first
    [ progress cbv beta iota
    | eapply wp_lift_inr; [eassumption|]
    | eapply wp_lift_inl; [eassumption|]
    | eapply wp_getitem_some;
      [st_simpl; lookup_inserts; first [eassumption | reflexivity]|]
    | eapply wp_getitem_none; [st_simpl; lookup_inserts; eassumption|]
    | eapply wp_cached;
      [st_simpl; lookup_inserts; first [eassumption | by eexists]|]
    | eapply wp_uncached; [st_simpl; lookup_inserts; eassumption|]
    | unfold_stages
    | lazymatch goal with
      | |- wp (mret _) _ _ => apply wp_ret
      | |- wp (setitem _ _ ≫= _) _ _ => apply wp_bind, wp_setitem; st_simpl
      | |- wp (dict_update _ ≫= _) _ _ =>
          apply wp_bind, wp_dict_update; st_simpl
      | |- wp (print _ ≫= _) _ _ => apply wp_bind, wp_print; st_simpl
      end ].

(** Two chains of inserts with literal keys that hold the same. *)
Ltac same_map :=
  apply map_eq; intros ?i;
  repeat match goal with
  | |- context [<[?k := _]> _ !! ?i] =>
      destruct (decide (k = i)) as [<-|];
      [by lookup_inserts | rewrite !(lookup_insert_ne _ k i) by done]
  end;
  done.

Ltac again :=
  intros; apply wp_again; intros again Hagain;
  unfold_stages; explore;
  known; try congruence;
  try subst again; apply wp_eq; unfold_stages; rerun;
  (split; [reflexivity|]);
  first [ reflexivity | f_equal; same_map ].

Section VerificationAgain.
Context `{NumLib}.
Variable p : Z.





End VerificationAgain.

Section CalculatorAgain.
Context `{NumLib}.
Variable p : Z.
Variables c hbar G : float.




End CalculatorAgain.



Module ExactFresh.
Import Exact ExactFacts ExactRuns ExactZdc ExactQcd ExactGravity ExactReport.
Local Open Scope R_scope.

(** The root at which the coupling is 1. *)
Definition unit_root : R := 1 / (exp 1 * PI * R_sqrt.sqrt 2).

Section Runs.
Variable p : Z.
Variable T : R.

Lemma calculator_zdc_returns_rooted (st : St (H:=numlib (rooted T))) g :
  results st !! "ğ’¢" = Some (Fin g) →
  183615267343 / 100000000 * g ≠ 137035999084 / 1000000000 →
  ∃ out st',
    BSMCalculator.verify_zdc (H:=numlib (rooted T)) p st = (inr out, st') ∧
    results st' !! "Î±_inv_pred" = Some (Fin (183615267343 / 100000000 * g)) ∧
    results st' !! "ğ’¢" = Some (Fin g) ∧
    results st' !! "T_eq" = results st !! "T_eq".
Proof.
  intros HG Hne. apply wp_returns.
  unfold BSMCalculator.verify_zdc. cbv zeta.
  xstep. xstep. xstep.
  { norm_scaled. lra. }
  do 8 xstep.
  eapply wp_lift_inr; [reflexivity|]. xstep.
  eapply wp_lift_inr; [reflexivity|]. xstep.
  eapply wp_lift_inr.
  { unfold BSMCalculator.significant_digits. xsimpl.
    rewrite x_log10_pos; [reflexivity|].
    norm_scaled. apply Rdiv_lt_0_compat; [|lra].
    apply Rabs_pos_lt. lra. }
  xstep. xstep. eexists. split; [reflexivity|]. st_simpl.
  split_and!; lookup_inserts; [|done..].
  norm_scaled. done.
Qed.

Lemma calculator_gravitational_returns (st : St (H:=numlib (rooted T))) g T' :
  results st !! "ğ’¢" = Some (Fin g) →
  results st !! "T_eq" = Some (Fin T') →
  g ≠ 0 → T' ≠ 0 →
  ∃ out st',
    BSMCalculator.compute_gravitational_constant (H:=numlib (rooted T)) p
      Scipy.c Scipy.hbar Scipy.G st = (inr out, st').
Proof.
  intros HG HT Hg HT'.
  cut (wp (BSMCalculator.compute_gravitational_constant
             (H:=numlib (rooted T)) p Scipy.c Scipy.hbar Scipy.G) st
          (λ out _, ∃ v, out = inr v ∧ True)).
  { intros Hwp. apply wp_returns in Hwp as (v & st' & Hrun & _).
    by exists v, st'. }
  unfold BSMCalculator.compute_gravitational_constant. cbv zeta.
  xstep. xstep. xstep. xsimpl. rewrite (x_sqrt_fin 2) by lra.
  eapply wp_lift_inr; [vm_compute; reflexivity|].
  xstep; [nonzero|].
  xstep; [by apply Rmult_integral_contrapositive_currified|].
  eapply wp_lift_inr; [vm_compute; reflexivity|].
  eapply wp_lift_inr; [vm_compute; reflexivity|].
  xstep. norm_float. xsimpl.
  xstep.
  xstep.
  { apply pow_nonzero.
    apply Rmult_integral_contrapositive_currified;
      [apply Rmult_integral_contrapositive_currified; nonzero|].
    unfold Rdiv. rewrite Rmult_1_l.
    by apply Rinv_neq_0_compat, Rmult_integral_contrapositive_currified. }
  do 4 xstep.
  eapply wp_lift_inr; [reflexivity|]. xstep.
  eapply wp_lift_inr; [reflexivity|].
  do 4 xstep. by eexists.
Qed.
End Runs.

Lemma unit_root_coupling :
  1 / (exp 1 * PI * R_sqrt.sqrt 2 * unit_root) = 1.
Proof. apply unit_coupling. Qed.

Lemma unit_root_nonzero : unit_root ≠ 0.
Proof. apply unit_coupling_root_nonzero. Qed.

Lemma calculator_geometric_fresh p lines :
  BSMCalculator.compute_geometric_factors (H:=numlib (rooted unit_root)) p
    (mkSt ∅ lines)
  = (inr (Fin unit_root, Fin 1),
     mkSt (<["epsilon_BSM" := Fin (scaled 10 4350917 (-20))]>
           (<["ğ’¢" := Fin 1]> (<["T_eq" := Fin unit_root]> ∅)))
          lines).
Proof.
  rewrite (calculator_geometric_run (rooted unit_root) p _ unit_root
             eq_refl unit_root_nonzero).
  st_simpl. by rewrite unit_root_coupling.
Qed.

Lemma prediction_at_unit_coupling :
  183615267343 / 100000000 * 1 ≠ 137035999084 / 1000000000.
Proof. lra. Qed.

Lemma calculator_zdc_fresh p lines :
  ∃ out st',
    BSMCalculator.verify_zdc (H:=numlib (rooted unit_root)) p (mkSt ∅ lines)
      = (inr out, st') ∧
    results st' !! "Î±_inv_pred" = Some (Fin (183615267343 / 100000000 * 1)).
Proof.
  rewrite calculator_zdc_defers by apply lookup_empty.
  unfold mbind at 1, M_bind. rewrite calculator_geometric_fresh.
  edestruct (calculator_zdc_returns_rooted p unit_root) as
    (out & st' & Hrun & Hα & _); [|apply prediction_at_unit_coupling|].
  2: { exists out, st'. split; [exact Hrun|exact Hα]. }
  st_simpl. by lookup_inserts.
Qed.

Lemma calculator_qcd_fresh p lines :
  ∃ out st',
    BSMCalculator.compute_qcd_scale (H:=numlib (rooted unit_root)) p
      (mkSt ∅ lines) = (inr out, st').
Proof.
  rewrite calculator_qcd_defers by apply lookup_empty.
  unfold mbind at 1, M_bind.
  destruct (calculator_zdc_fresh p lines) as (out & st' & -> & Hα).
  rewrite (calculator_qcd_run (rooted unit_root) p st' _ Hα) by lra.
  by eexists _, _.
Qed.

Lemma verification_geometric_fresh p lines :
  ∃ st',
    BSMVerification.verify_geometric_coupling (H:=numlib (rooted unit_root)) p
      (mkSt ∅ lines) = (inr (Fin 1), st') ∧
    results st' !! "𝒢" = Some (Fin 1).
Proof.
  rewrite geometric_defers by apply lookup_empty.
  unfold mbind at 1, M_bind.
  rewrite (verification_transcendental_run (rooted unit_root) p _ unit_root
             eq_refl).
  erewrite (verification_geometric_run (rooted unit_root) p _ unit_root);
    [|st_simpl; by lookup_inserts|apply unit_root_nonzero].
  rewrite unit_root_coupling. eexists. split; [reflexivity|].
  st_simpl. by lookup_inserts.
Qed.

Lemma verification_zdc_fresh p lines :
  ∃ out st',
    BSMVerification.verify_zdc (H:=numlib (rooted unit_root)) p
      (mkSt ∅ lines) = (inr out, st').
Proof.
  rewrite zdc_defers by apply lookup_empty.
  unfold mbind at 1, M_bind.
  destruct (verification_geometric_fresh p lines) as (st' & -> & HG).
  rewrite (verification_zdc_run (rooted unit_root) p st' 1 HG).
  by eexists _, _.
Qed.


Lemma calculator_analysis_returns p :
  ∃ out st',
    BSMCalculator.run_complete_analysis (H:=numlib (rooted unit_root)) p
      Scipy.c Scipy.hbar Scipy.G (mkSt ∅ []) = (inr out, st').
Proof.
  set (X := rooted unit_root).
  cut (wp (BSMCalculator.run_complete_analysis (H:=numlib X) p
             Scipy.c Scipy.hbar Scipy.G)
          (mkSt ∅ []) (λ out _, ∃ v, out = inr v ∧ True)).
  { intros Hwp. apply wp_returns in Hwp as (v & st' & Hrun & _).
    by exists v, st'. }
  unfold BSMCalculator.run_complete_analysis.
  do 4 xstep.
  eapply wp_bind_returns; [apply calculator_geometric_fresh|].
  xstep.
  match goal with
  | |- wp (_ ≫= _) ?s _ =>
      destruct (calculator_zdc_returns_rooted p unit_root s 1)
        as (out1 & st1 & Hrun1 & Hα & HG & HT)
  end.
  { st_simpl. by lookup_inserts. }
  { apply prediction_at_unit_coupling. }
  eapply wp_bind_returns; [exact Hrun1|].
  cbn [results] in HT. rewrite lookup_insert_ne in HT by done.
  rewrite lookup_insert_ne in HT by done.
  rewrite lookup_insert_eq in HT.
  xstep.
  eapply wp_bind_returns.
  { eapply (calculator_qcd_run X p); [st_simpl; exact Hα|lra]. }
  xstep.
  match goal with
  | |- wp (_ ≫= _) ?s _ =>
      destruct (calculator_gravitational_returns p unit_root s 1 unit_root)
        as (out2 & st2 & Hrun2)
  end.
  { st_simpl. by lookup_inserts. }
  { st_simpl. by lookup_inserts. }
  { lra. }
  { apply unit_root_nonzero. }
  eapply wp_bind_returns; [exact Hrun2|].
  do 4 xstep. by eexists.
Qed.
End ExactFresh.

(** * Where the code departs from the specification *)

Module Counterexamples.
Import Exact ExactFacts ExactRuns ExactZdc ExactQcd.
Local Open Scope R_scope.

(** Seven distinct names cannot all be entries of a cache of four. *)
Lemma no_seven_names_among_four (keys : list string) (cache : gset string) :
  NoDup keys → Forall (λ k, k ∈ cache) keys →
  (length keys <= size cache)%nat.
Proof.
  intros Hnd Hin. rewrite <- (size_list_to_set (C:=gset string) keys Hnd).
  apply subseteq_size. intros k Hk. rewrite elem_of_list_to_set in Hk.
  by eapply Forall_forall in Hin.
Qed.

(** C8, refuted. The verification class runs its confinement-scale stage
    on a cache that holds the geometric coupling. The stage returns, and
    the cache then has four entries: the coupling, C_gyro and the two
    scales. So there are no five further entries for the five
    sub-terms. *)
Lemma qcd_sub_terms_are_not_entries :
  ∃ out st',
    BSMVerification.verify_qcd_scale (H:=numlib stalled) 100
      (mkSt {[ "𝒢" := Fin 1 ]} []) = (inr out, st') ∧
    ¬ ∃ k1 k2 k3 k4 k5 : string,
        NoDup [k1; k2; k3; k4; k5; "Λ_QCD_bare"; "Λ_QCD_1GeV"]%string ∧
        Forall (λ k, is_Some (results st' !! k)) [k1; k2; k3; k4; k5].
Proof.
  eexists _, _. split.
  { apply (verification_qcd_run stalled 100 _ (Fin 1)).
    apply lookup_singleton_eq. }
  st_simpl. intros (k1 & k2 & k3 & k4 & k5 & Hnd & Hin).
  pose proof (no_seven_names_among_four
                [k1; k2; k3; k4; k5; "Λ_QCD_bare"; "Λ_QCD_1GeV"]%string
                {[ "Λ_QCD_1GeV"; "Λ_QCD_bare"; "C_gyro"; "𝒢" ]} Hnd) as Hle.
  assert (size ({[ "Λ_QCD_1GeV"; "Λ_QCD_bare"; "C_gyro"; "𝒢" ]}
                : gset string) = 4%nat) as Hsize by (vm_compute; reflexivity).
  rewrite Hsize in Hle. simpl in Hle.
  enough (Forall (λ k : string,
            k ∈ ({[ "Λ_QCD_1GeV"; "Λ_QCD_bare"; "C_gyro"; "𝒢" ]}
                 : gset string))
            [k1; k2; k3; k4; k5; "Λ_QCD_bare"; "Λ_QCD_1GeV"]%string)
    as Hall by (specialize (Hle Hall); lia).
  apply Forall_app with (l1 := [k1; k2; k3; k4; k5]). split.
  - eapply Forall_impl; [exact Hin|]. intros k Hk. cbv beta in Hk.
    apply elem_of_dom in Hk.
    rewrite !dom_insert_L, dom_singleton_L in Hk.
    rewrite !elem_of_union, !elem_of_singleton in Hk.
    rewrite !elem_of_union, !elem_of_singleton. tauto.
  - repeat constructor; rewrite !elem_of_union, !elem_of_singleton; tauto.
Qed.

(** C3, refuted. Both classes hold the same upstream values, the coupling
    137.035999084 / 1836.15267343 and the prediction 137.035999084. Both
    confinement-scale stages return, with equal C_gyro and equal bare
    scales, and unequal scales at 1 GeV. *)
Lemma qcd_stages_disagree_at_1GeV :
  let G := Fin (137035999084 / 1000000000 / (183615267343 / 100000000)) in
  let α_inv_pred := Fin (137035999084 / 1000000000) in
  ∃ outV stV outC stC,
    BSMVerification.verify_qcd_scale (H:=numlib stalled) 100
      (mkSt (<[ "α_inv_pred" := α_inv_pred ]> {[ "𝒢" := G ]}) [])
      = (inr outV, stV) ∧
    BSMCalculator.compute_qcd_scale (H:=numlib stalled) 100
      (mkSt (<[ "Î±_inv_pred" := α_inv_pred ]> {[ "ğ’¢" := G ]}) [])
      = (inr outC, stC) ∧
    results stV !! "C_gyro" = results stC !! "C_gyro" ∧
    results stV !! "Λ_QCD_bare" = results stC !! "Î›_QCD_bare" ∧
    results stV !! "Λ_QCD_1GeV" ≠ results stC !! "Î›_QCD_1GeV" ∧
    outV ≠ outC.
Proof.
  intros G α_inv_pred. eexists _, _, _, _.
  split.
  { apply (verification_qcd_run stalled 100 _ G).
    st_simpl. by lookup_inserts. }
  split.
  { apply (calculator_qcd_run stalled 100 _ (137035999084 / 1000000000)).
    - st_simpl. by lookup_inserts.
    - lra. }
  st_simpl. lookup_inserts.
  assert (0 < Λ_bare (137035999084 / 1000000000)) as Hpos
    by (apply Λ_bare_pos; lra).
  split_and!; try reflexivity.
  - intros [= Heq]. by apply evolution_factors_differ in Heq.
  - intros [= Heq]. by apply evolution_factors_differ in Heq.
Qed.

(** C4, at the failing input. The verification class holds the coupling 1,
    and its comparison stage stores the prediction 1836.15267343. Its
    confinement-scale stage then stores the bare scale of the literal
    137.035999084, which is not the bare scale of the stored prediction;
    the calculator's stage, on the same prediction, stores the latter. *)
Lemma verification_qcd_ignores_the_prediction :
  ∃ out1 st1 out2 st2 out3 st3,
    BSMVerification.verify_zdc (H:=numlib stalled) 100
      (mkSt {[ "𝒢" := Fin 1 ]} []) = (inr out1, st1) ∧
    results st1 !! "α_inv_pred" = Some (Fin (183615267343 / 100000000 * 1)) ∧
    BSMVerification.verify_qcd_scale 100 st1 = (inr out2, st2) ∧
    results st2 !! "Λ_QCD_bare"
      = Some (Fin (Λ_bare (137035999084 / 1000000000))) ∧
    BSMCalculator.compute_qcd_scale (H:=numlib stalled) 100
      (mkSt {[ "Î±_inv_pred" := Fin (183615267343 / 100000000 * 1) ]} [])
      = (inr out3, st3) ∧
    results st3 !! "Î›_QCD_bare"
      = Some (Fin (Λ_bare (183615267343 / 100000000 * 1))) ∧
    Λ_bare (137035999084 / 1000000000)
      ≠ Λ_bare (183615267343 / 100000000 * 1).
Proof.
  eexists _, _, _, _, _, _.
  split.
  { apply (verification_zdc_run stalled 100 _ 1). apply lookup_singleton_eq. }
  st_simpl. split; [by lookup_inserts|].
  split.
  { apply (verification_qcd_run stalled 100 _ (Fin 1)).
    st_simpl. lookup_inserts. apply lookup_singleton_eq. }
  st_simpl. split; [by lookup_inserts|].
  split.
  { apply (calculator_qcd_run stalled 100 _ (183615267343 / 100000000 * 1)).
    - apply lookup_singleton_eq.
    - lra. }
  st_simpl. split; [by lookup_inserts|].
  intros Heq. apply Λ_bare_inj in Heq. lra.
Qed.

(** C7, refuted. A process at mpmath's default of 15 digits constructs a
    first instance with 50 digits and then a second one with 200. A
    method of the first instance that returns the precision it finds
    returns 50 before the second construction and 200 after it. *)
Lemma second_instance_changes_the_precision :
  let w0 := mkProcess (H:=numlib stalled) 15%Z ∅ [] in
  let a := (new Verification (Some 50%Z) w0).1 in
  let w1 := (new Verification (Some 50%Z) w0).2 in
  let b := (new Verification (Some 200%Z) w1).1 in
  let w2 := (new Verification (Some 200%Z) w1).2 in
  a ≠ b ∧
  fst <$> call a (λ dps, mret dps) w1 = Some (inr 50%Z) ∧
  fst <$> call a (λ dps, mret dps) w2 = Some (inr 200%Z) ∧
  mp_dps w2 ≠ 50%Z.
Proof. vm_compute. split_and!; try reflexivity; discriminate. Qed.
End Counterexamples.

(** * Runs of the claims at concrete inputs *)

Module Witnesses.
Import Exact ExactFacts ExactRuns ExactZdc ExactSolver ExactQcd.
Local Open Scope R_scope.

(** Both stages return from a cache that holds G = 1, and the cache then
    holds the product and the quotient. *)
Lemma zdc_prediction_and_relative_error_witness :
  (∃ out st',
     BSMVerification.verify_zdc (H:=numlib stalled) 100
       (mkSt {[ "𝒢" := Fin 1 ]} []) = (inr out, st') ∧
     ∃ G rel,
       results st' !! "𝒢" = Some G ∧
       results st' !! "α_inv_pred"
         = Some (mp_mul 100 (mp_mpf 100 183615267343 (-8)) G) ∧
       mp_div 100 (mp_abs 100 (mp_sub 100
                   (mp_mul 100 (mp_mpf 100 183615267343 (-8)) G)
                   (mp_mpf 100 137035999084 (-9))))
                (mp_mpf 100 137035999084 (-9)) = inr rel ∧
       results st' !! "zdc_rel_error" = Some rel) ∧
  (∃ out st',
     BSMCalculator.verify_zdc (H:=numlib stalled) 100
       (mkSt {[ "ğ’¢" := Fin 1 ]} []) = (inr out, st') ∧
     ∃ G rel,
       results st' !! "ğ’¢" = Some G ∧
       results st' !! "Î±_inv_pred"
         = Some (mp_mul 100 (mp_mpf 100 183615267343 (-8)) G) ∧
       mp_div 100 (mp_abs 100 (mp_sub 100
                   (mp_mul 100 (mp_mpf 100 183615267343 (-8)) G)
                   (mp_mpf 100 137035999084 (-9))))
                (mp_mpf 100 137035999084 (-9)) = inr rel ∧
       results st' !! "zdc_rel_error" = Some rel).
Proof.
  destruct (zdc_prediction_and_relative_error (H:=numlib stalled) 100)
    as [HV HC].
  split.
  - eexists _, _. split.
    + apply (verification_zdc_run stalled 100 _ 1). apply lookup_singleton_eq.
    + eapply HV. apply (verification_zdc_run stalled 100 _ 1).
      apply lookup_singleton_eq.
  - destruct (calculator_zdc_returns 100 (mkSt {[ "ğ’¢" := Fin 1 ]} []) 1)
      as (out & st' & Hrun).
    + apply lookup_singleton_eq.
    + lra.
    + exists out, st'. split; [exact Hrun|]. exact (HC _ _ _ Hrun).
Defined.

(** With the root finder that never settles, on a new instance of either
    class: the solver and the driver raise its exception, and T_eq is
    still absent. *)
Lemma solver_failure_propagates_witness :
  let e := ValueError "Could not find root within given tolerance." in
  let st := mkSt (H:=numlib stalled) ∅ [] in
  ((∃ eps, BSMVerification.epsilon_BSM (H:=numlib stalled) 100 = inr eps) ∧
   mp_findroot (NumLib:=numlib stalled) 100
     (BSMVerification.f 100 (mp_mpf 100 4350917 (-20)))
     (mp_mpf 100 10 (-1)) = inl e ∧
   BSMVerification.verify_transcendental_equation 100 st = (inl e, st) ∧
   ∃ st', BSMVerification.run_all_verifications 100 st = (inl e, st') ∧
          results st' = results st ∧
          (results st !! "T_eq" = None → results st' !! "T_eq" = None)) ∧
  (mp_findroot (NumLib:=numlib stalled) 100
     (BSMCalculator.transcendental_eq 100 (mp_mpf 100 4350917 (-20)))
     (mp_mpf 100 10 (-1)) = inl e ∧
   BSMCalculator.compute_geometric_factors 100 st = (inl e, st) ∧
   ∃ st', BSMCalculator.run_complete_analysis 100
            Scipy.c Scipy.hbar Scipy.G st
          = (inl e, st') ∧
          results st' = results st ∧
          (results st !! "T_eq" = None → results st' !! "T_eq" = None)).
Proof.
  intros e st.
  destruct (solver_failure_propagates (H:=numlib stalled) 100
              Scipy.c Scipy.hbar Scipy.G)
    as [HV HC].
  destruct (epsilon_BSM_defined stalled 100) as [eps Heps].
  split.
  - split; [by exists eps|]. split; [reflexivity|].
    exact (HV st eps e Heps eq_refl).
  - split; [reflexivity|]. exact (HC st e eq_refl).
Defined.

(** Each class with its upstream value cached: the stage returns and adds
    its three entries. *)
Lemma qcd_stage_adds_three_entries_witness :
  (∃ out st',
     let st := mkSt (H:=numlib stalled) {[ "𝒢" := Fin 1 ]} [] in
     is_Some (results st !! "𝒢") ∧
     BSMVerification.verify_qcd_scale 100 st = (inr out, st') ∧
     results st' !! "Λ_QCD_1GeV" = Some out ∧
     is_Some (results st' !! "Λ_QCD_bare") ∧
     is_Some (results st' !! "C_gyro") ∧
     dom (results st')
       = dom (results st) ∪ {[ "C_gyro"; "Λ_QCD_bare"; "Λ_QCD_1GeV" ]}) ∧
  (∃ out st',
     let st := mkSt (H:=numlib stalled) {[ "Î±_inv_pred" := Fin 1 ]} [] in
     is_Some (results st !! "Î±_inv_pred") ∧
     BSMCalculator.compute_qcd_scale 100 st = (inr out, st') ∧
     results st' !! "Î›_QCD_1GeV" = Some out ∧
     is_Some (results st' !! "Î›_QCD_bare") ∧
     is_Some (results st' !! "C_gyro") ∧
     dom (results st')
       = dom (results st) ∪ {[ "C_gyro"; "Î›_QCD_bare"; "Î›_QCD_1GeV" ]}).
Proof.
  destruct (qcd_stage_adds_three_entries (H:=numlib stalled) 100)
    as [HV HC].
  split.
  - assert (is_Some (results (mkSt (H:=numlib stalled)
                                {[ "𝒢" := Fin 1 ]} []) !! "𝒢")) as Hdep
      by (st_simpl; rewrite lookup_singleton_eq; by eexists).
    eexists _, _. cbv zeta. split; [exact Hdep|]. split.
    + apply (verification_qcd_run stalled 100 _ (Fin 1)).
      apply lookup_singleton_eq.
    + apply HV; [exact Hdep|].
      apply (verification_qcd_run stalled 100 _ (Fin 1)).
      apply lookup_singleton_eq.
  - assert (is_Some (results (mkSt (H:=numlib stalled)
                                {[ "Î±_inv_pred" := Fin 1 ]} [])
                     !! "Î±_inv_pred")) as Hdep
      by (st_simpl; rewrite lookup_singleton_eq; by eexists).
    eexists _, _. cbv zeta. split; [exact Hdep|]. split.
    + apply (calculator_qcd_run stalled 100 _ 1);
        [apply lookup_singleton_eq | lra].
    + apply HC; [exact Hdep|].
      apply (calculator_qcd_run stalled 100 _ 1);
        [apply lookup_singleton_eq | lra].
Defined.

(** The two stages on the caches of [G = 1] and of the prediction [1]. *)
Lemma qcd_stages_share_C_gyro_not_evolution_witness :
  let stV := mkSt (H:=numlib stalled) {[ "𝒢" := Fin 1 ]} [] in
  let stC := mkSt (H:=numlib stalled) {[ "Î±_inv_pred" := Fin 1 ]} [] in
  results stV !! "𝒢" = Some (Fin 1) ∧
  results stC !! "Î±_inv_pred" = Some (Fin 1) ∧
  1 ≠ 0 ∧
  ∃ outV stV' outC stC' C bV bC,
    BSMVerification.verify_qcd_scale 100 stV = (inr outV, stV') ∧
    BSMCalculator.compute_qcd_scale 100 stC = (inr outC, stC') ∧
    results stV' !! "C_gyro" = Some C ∧
    results stC' !! "C_gyro" = Some C ∧
    results stV' !! "Λ_QCD_bare" = Some (Fin bV) ∧
    results stC' !! "Î›_QCD_bare" = Some (Fin bC) ∧
    results stV' !! "Λ_QCD_1GeV"
      = Some (Fin (bV * exp (2 * PI / (9 * (1 / 1 - 1 / (45 / 100)))))) ∧
    results stC' !! "Î›_QCD_1GeV"
      = Some (Fin (bC * exp (2 * PI / (9 * 2)))) ∧
    (bV = bC →
     results stV' !! "Λ_QCD_1GeV" ≠ results stC' !! "Î›_QCD_1GeV").
Proof.
  intros stV stC.
  assert (results stV !! "𝒢" = Some (Fin 1)) as HG
    by apply lookup_singleton_eq.
  assert (results stC !! "Î±_inv_pred" = Some (Fin 1)) as Ha
    by apply lookup_singleton_eq.
  assert (1 ≠ 0) as Hne by lra.
  split; [exact HG|]. split; [exact Ha|]. split; [exact Hne|].
  exact (qcd_stages_share_C_gyro_not_evolution stalled 100 stV stC
           (Fin 1) 1 HG Ha Hne).
Defined.
End Witnesses.

(** * Runs of the edges at concrete inputs *)

Module EdgeRuns.
Import Exact ExactFacts ExactRuns ExactZdc ExactSolver ExactGravity ExactEdges.
Import ExactReport ExactFresh.
Local Open Scope R_scope.

(** A cache that holds the coupling alone, for each class. *)
Lemma gravitational_stage_needs_the_root_witness :
  let stV := mkSt (H:=numlib stalled) {[ "𝒢" := Fin 1 ]} [] in
  let stC := mkSt (H:=numlib stalled) {[ "ğ’¢" := Fin 1 ]} [] in
  (is_Some (results stV !! "𝒢") ∧ results stV !! "T_eq" = None ∧
   BSMVerification.verify_gravitational_constant 100 stV
     = (inl (KeyError "T_eq"), stV)) ∧
  (is_Some (results stC !! "ğ’¢") ∧ results stC !! "T_eq" = None ∧
   BSMCalculator.compute_gravitational_constant 100
     Scipy.c Scipy.hbar Scipy.G stC
     = (inl (KeyError "T_eq"), stC)).
Proof.
  intros stV stC.
  destruct (gravitational_stage_needs_the_root (H:=numlib stalled) 100
              Scipy.c Scipy.hbar Scipy.G) as [HV HC].
  assert (is_Some (results stV !! "𝒢")) as HgV
    by (subst stV; st_simpl; rewrite lookup_singleton_eq; by eexists).
  assert (results stV !! "T_eq" = None) as HTV
    by (subst stV; st_simpl; by apply lookup_singleton_ne).
  assert (is_Some (results stC !! "ğ’¢")) as HgC
    by (subst stC; st_simpl; rewrite lookup_singleton_eq; by eexists).
  assert (results stC !! "T_eq" = None) as HTC
    by (subst stC; st_simpl; by apply lookup_singleton_ne).
  split.
  - split; [exact HgV|]. split; [exact HTV|]. exact (HV stV HgV HTV).
  - split; [exact HgC|]. split; [exact HTC|]. exact (HC stC HgC HTC).
Defined.

(** The solver that never settles on a new instance, the root 0 and the
    product 0 of coupling and root: each stage raises and the instance is
    as before. *)
Lemma verification_failure_is_atomic_witness :
  let st0 := mkSt (H:=numlib stalled) ∅ [] in
  let st1 := mkSt (H:=numlib stalled) {[ "T_eq" := Fin 0 ]} [] in
  let st2 :=
    mkSt (H:=numlib stalled) (<["𝒢" := Fin 0]> {[ "T_eq" := Fin 1 ]}) [] in
  (∃ e st',
     BSMVerification.verify_transcendental_equation 100 st0 = (inl e, st') ∧
     st' = st0) ∧
  (∃ e st',
     is_Some (results st1 !! "T_eq") ∧
     BSMVerification.verify_geometric_coupling 100 st1 = (inl e, st') ∧
     st' = st1) ∧
  (∃ e st',
     is_Some (results st2 !! "𝒢") ∧
     BSMVerification.verify_gravitational_constant 100 st2 = (inl e, st') ∧
     st' = st2).
Proof.
  intros st0 st1 st2.
  destruct (verification_failure_is_atomic (H:=numlib stalled) 100)
    as (Htrans & Hgeo & Hgrav).
  destruct (epsilon_BSM_defined stalled 100) as [eps Heps].
  pose proof (verification_solver_raises 100 st0 eps _ Heps eq_refl) as Hrun0.
  assert (results st1 !! "T_eq" = Some (Fin 0)) as HT1
    by (subst st1; st_simpl; apply lookup_singleton_eq).
  pose proof (verification_geometric_zero stalled 100 st1 HT1) as Hrun1.
  assert (results st2 !! "𝒢" = Some (Fin 0)) as HG2
    by (subst st2; st_simpl; by lookup_inserts).
  assert (results st2 !! "T_eq" = Some (Fin 1)) as HT2
    by (subst st2; st_simpl; lookup_inserts; apply lookup_singleton_eq).
  assert (0 * 1 = 0) as Hz by lra.
  pose proof (verification_gravitational_zero stalled 100 st2 0 1 HG2 HT2 Hz)
    as Hrun2.
  split_and!.
  - eexists _, _. split; [exact Hrun0|]. exact (Htrans _ _ _ Hrun0).
  - assert (is_Some (results st1 !! "T_eq")) as Hin by (eexists; exact HT1).
    eexists _, _. split; [exact Hin|]. split; [exact Hrun1|].
    exact (Hgeo _ _ _ Hin Hrun1).
  - assert (is_Some (results st2 !! "𝒢")) as Hin by (eexists; exact HG2).
    eexists _, _. split; [exact Hin|]. split; [exact Hrun2|].
    exact (Hgrav _ _ _ Hin Hrun2).
Defined.

(** The coupling at which the relative error is exactly zero: counting
    the digits raises after the seven lines before it are printed, and
    the five entries are in the cache. *)
Lemma calculator_zdc_writes_before_it_prints_witness :
  let st := mkSt (H:=numlib stalled) {[ "ğ’¢" := Fin matching_coupling ]} [] in
  ∃ rel st',
    results st !! "ğ’¢" = Some (Fin matching_coupling) ∧
    mp_div (NumLib:=numlib stalled) 100 (mp_abs (NumLib:=numlib stalled) 100 (mp_sub (NumLib:=numlib stalled) 100
                (mp_mul (NumLib:=numlib stalled) 100 (mp_mpf (NumLib:=numlib stalled) 100 183615267343 (-8))
                            (Fin matching_coupling))
                (mp_mpf (NumLib:=numlib stalled) 100 137035999084 (-9))))
             (mp_mpf (NumLib:=numlib stalled) 100 137035999084 (-9)) = inr rel ∧
    BSMCalculator.verify_zdc 100 st
      = (inl (ValueError "cannot convert inf or nan to int"), st') ∧
    results st' =
      <["zdc_rel_error" := rel]>
      (<["zdc_error" :=
          mp_abs (NumLib:=numlib stalled) 100 (mp_sub (NumLib:=numlib stalled) 100
            (mp_mul (NumLib:=numlib stalled) 100 (mp_mpf (NumLib:=numlib stalled) 100 183615267343 (-8))
                        (Fin matching_coupling))
            (mp_mpf (NumLib:=numlib stalled) 100 137035999084 (-9)))]>
      (<["Î±_inv_CODATA" := mp_mpf (NumLib:=numlib stalled) 100 137035999084 (-9)]>
      (<["Î±_inv_pred" :=
          mp_mul (NumLib:=numlib stalled) 100 (mp_mpf (NumLib:=numlib stalled) 100 183615267343 (-8)) (Fin matching_coupling)]>
      (<["Î¼" := mp_mpf (NumLib:=numlib stalled) 100 183615267343 (-8)]> (results st))))).
Proof.
  intros st.
  assert (results st !! "ğ’¢" = Some (Fin matching_coupling)) as HG
    by (subst st; st_simpl; apply lookup_singleton_eq).
  destruct (calculator_zdc_raises_at_zero 100 st matching_coupling HG
              matching_coupling_matches) as (st' & Hrun & _).
  eexists _, st'. split; [exact HG|].
  assert (mp_div (NumLib:=numlib stalled) 100
            (mp_abs (NumLib:=numlib stalled) 100
               (mp_sub (NumLib:=numlib stalled) 100
                  (mp_mul (NumLib:=numlib stalled) 100
                     (mp_mpf (NumLib:=numlib stalled) 100 183615267343 (-8))
                     (Fin matching_coupling))
                  (mp_mpf (NumLib:=numlib stalled) 100 137035999084 (-9))))
            (mp_mpf (NumLib:=numlib stalled) 100 137035999084 (-9))
          = inr (Fin (Rabs (scaled 10 183615267343 (-8) * matching_coupling
                            + - scaled 10 137035999084 (-9))
                      / scaled 10 137035999084 (-9)))) as Hrel.
  { xsimpl. apply x_div_fin. norm_scaled. lra. }
  split; [exact Hrel|]. split; [exact Hrun|].
  exact (calculator_zdc_writes_before_it_prints (H:=numlib stalled) 100
           st _ _ _ st' HG Hrel Hrun).
Defined.

(** A new instance, on which every key is missing. *)
Lemma missing_key_runs_the_upstream_stage_first_witness :
  let st := mkSt (H:=numlib (rooted unit_root)) ∅ [] in
  (results st !! "T_eq" = None ∧
   BSMVerification.verify_geometric_coupling 100 st
     = (BSMVerification.verify_transcendental_equation 100
        ≫= λ _, BSMVerification.verify_geometric_coupling 100) st) ∧
  (results st !! "𝒢" = None ∧
   BSMVerification.verify_zdc 100 st
     = (BSMVerification.verify_geometric_coupling 100
        ≫= λ _, BSMVerification.verify_zdc 100) st) ∧
  (results st !! "ğ’¢" = None ∧
   BSMCalculator.verify_zdc 100 st
     = (BSMCalculator.compute_geometric_factors 100
        ≫= λ _, BSMCalculator.verify_zdc 100) st) ∧
  (results st !! "Î±_inv_pred" = None ∧
   BSMCalculator.compute_qcd_scale 100 st
     = (BSMCalculator.verify_zdc 100
        ≫= λ _, BSMCalculator.compute_qcd_scale 100) st).
Proof.
  intros st.
  destruct (missing_key_runs_the_upstream_stage_first
              (H:=numlib (rooted unit_root)) 100 Scipy.c Scipy.hbar Scipy.G st)
    as (HT & HG & HGc & Hα).
  assert (∀ k, results st !! k = None) as Hnone
    by (intros k; apply lookup_empty).
  split_and!; try apply Hnone.
  - exact (HT (Hnone _)).
  - exact (proj1 (HG (Hnone _))).
  - exact (proj1 (HGc (Hnone _))).
  - exact (Hα (Hnone _)).
Defined.

(** The comparison of the verification class and the confinement scale
    of the calculator on new instances, with the solver that answers the
    root of unit coupling. *)
Lemma new_instance_holds_the_chain_of_a_call_witness :
  let st := mkSt (H:=numlib (rooted unit_root)) ∅ [] in
  (∃ out st',
     VerificationCalls.invoke 100 VerificationCalls.zdc st = (inr out, st') ∧
     dom (results st') = verification_chain VerificationCalls.zdc) ∧
  (∃ out st',
     CalculatorCalls.invoke Scipy.c Scipy.hbar Scipy.G 100
       CalculatorCalls.qcd_scale st = (inr out, st') ∧
     dom (results st') = calculator_chain CalculatorCalls.qcd_scale).
Proof.
  intros st.
  destruct (new_instance_holds_the_chain_of_a_call
              (H:=numlib (rooted unit_root)) 100 Scipy.c Scipy.hbar Scipy.G [])
    as [HV HC].
  destruct (verification_zdc_fresh 100 []) as (outV & stV & HrunV).
  destruct (calculator_qcd_fresh 100 []) as (outC & stC & HrunC).
  assert (VerificationCalls.invoke 100 VerificationCalls.zdc st
          = (inr tt, stV)) as HinvV.
  { unfold VerificationCalls.invoke, mbind, M_bind. subst st.
    by rewrite HrunV. }
  assert (CalculatorCalls.invoke Scipy.c Scipy.hbar Scipy.G 100
            CalculatorCalls.qcd_scale st = (inr tt, stC)) as HinvC.
  { unfold CalculatorCalls.invoke, mbind, M_bind. subst st.
    by rewrite HrunC. }
  split.
  - exists tt, stV. split; [exact HinvV|]. exact (HV _ _ _ HinvV).
  - exists tt, stC. split; [exact HinvC|]. exact (HC _ _ _ HinvC).
Defined.

(** Both drivers on new instances, with the same solver and the table
    values of scipy. *)
Lemma drivers_return_the_complete_cache_witness :
  let st := mkSt (H:=numlib (rooted unit_root)) ∅ [] in
  (∃ out st',
     BSMVerification.run_all_verifications 100 st = (inr out, st') ∧
     out = results st' ∧ VerificationKeys.all ⊆ dom out) ∧
  (∃ out st',
     BSMCalculator.run_complete_analysis 100 Scipy.c Scipy.hbar Scipy.G st
       = (inr out, st') ∧
     out = results st' ∧ CalculatorKeys.all ⊆ dom out).
Proof.
  intros st.
  destruct (drivers_return_the_complete_cache
              (H:=numlib (rooted unit_root)) 100 Scipy.c Scipy.hbar Scipy.G)
    as [HV HC].
  destruct (verification_report_returns 100) as (outV & stV & HrunV).
  destruct (calculator_analysis_returns 100) as (outC & stC & HrunC).
  split.
  - exists outV, stV. split; [exact HrunV|]. exact (HV _ _ _ HrunV).
  - exists outC, stC. split; [exact HrunC|]. exact (HC _ _ _ HrunC).
Defined.

(** One new instance of each class, under the same solver. *)
Lemma classes_agree_on_root_and_coupling_witness :
  let st := mkSt (H:=numlib (rooted unit_root)) ∅ [] in
  ∃ stV' stC',
    results st !! "T_eq" = None ∧
    BSMVerification.verify_geometric_coupling 100 st = (inr (Fin 1), stV') ∧
    BSMCalculator.compute_geometric_factors 100 st
      = (inr (Fin unit_root, Fin 1), stC') ∧
    results stV' !! "T_eq" = Some (Fin unit_root) ∧
    results stC' !! "T_eq" = Some (Fin unit_root) ∧
    results stV' !! "𝒢" = Some (Fin 1) ∧
    results stC' !! "ğ’¢" = Some (Fin 1) ∧
    results stV' !! "epsilon_BSM" = results stC' !! "epsilon_BSM".
Proof.
  intros st.
  assert (results st !! "T_eq" = None) as HT by apply lookup_empty.
  destruct (verification_geometric_fresh 100 []) as (stV' & HrunV & _).
  pose proof (calculator_geometric_fresh 100 []) as HrunC.
  destruct (classes_agree_on_root_and_coupling
              (H:=numlib (rooted unit_root)) 100 st st _ _ _ _ _
              HT HrunV HrunC) as (_ & H1 & H2 & H3 & H4 & H5).
  eexists stV', _. split; [exact HT|]. split; [exact HrunV|].
  split; [exact HrunC|]. split_and!; assumption.
Defined.

End EdgeRuns.
